(** * Maele a Basotho: normalisation, duplicate checks, search and bulk import

    A shallow embedding of the business logic of [app/Proverbs_app.py] and
    [upload_json_to_firestore.py]:

    - Python [str] values are [string]s over [ascii]; [str.strip],
      [str.lower], [str.split] and the [in] operator are modelled on the
      ASCII range (code points below 128), which is where Python's whitespace
      and case tables are reproduced exactly;
    - a Python [dict] is a [gmap string pyval];
    - an uncaught Python exception is the [Raise] constructor of [result];
    - the Firestore collection is a list of [(document id, fields)] pairs;
      network failures of the store are outside the model. *)

From Stdlib Require Import Ascii String.
From stdpp Require Import gmap strings list fin_maps sorting.

Local Open Scope string_scope.
Local Open Scope list_scope.
Local Open Scope stdpp_scope.

(** ** Python [str] operations *)

Module PyStr.

(** [str.isspace] on one character: TAB, LF, VT, FF, CR, the four
    separators FS, GS, RS, US, and SPACE. *)
Definition is_space (c : ascii) : bool :=
  match c with
  | "009" | "010" | "011" | "012" | "013"
  | "028" | "029" | "030" | "031" | " " => true
  | _ => false
  end%char.

Definition is_upper (c : ascii) : bool :=
  let n := nat_of_ascii c in (65 <=? n)%nat && (n <=? 90)%nat.

Definition lower_char (c : ascii) : ascii :=
  if is_upper c then ascii_of_nat (nat_of_ascii c + 32) else c.

(** [s.lower()] *)
Fixpoint lower (s : string) : string :=
  match s with
  | "" => ""
  | String c s' => String (lower_char c) (lower s')
  end.

(** [s.lstrip()] *)
Fixpoint lstrip (s : string) : string :=
  match s with
  | "" => ""
  | String c s' => if is_space c then lstrip s' else s
  end.

(** [s.rstrip()] *)
Fixpoint rstrip (s : string) : string :=
  match s with
  | "" => ""
  | String c s' =>
      match rstrip s' with
      | "" => if is_space c then "" else String c ""
      | r => String c r
      end
  end.

(** [s.strip()] *)
Definition strip (s : string) : string := rstrip (lstrip s).

(** Truth value of a [str]: [not s] is [negb (truthy s)]. *)
Definition truthy (s : string) : bool :=
  match s with "" => false | _ => true end.

(** [s.split()] with no separator: maximal runs of non-whitespace
    characters, scanned left to right; [cur] is the word being read. *)
Fixpoint split_go (cur : string) (s : string) : list string :=
  match s with
  | "" => if truthy cur then [cur] else []
  | String c s' =>
      if is_space c
      then (if truthy cur then cur :: split_go "" s' else split_go "" s')
      else split_go (cur +:+ String c "") s'
  end.

Definition split (s : string) : list string := split_go "" s.

(** [s.startswith(k)] *)
Fixpoint startswith (k s : string) : bool :=
  match k, s with
  | "", _ => true
  | String a k', String b s' => if ascii_dec a b then startswith k' s' else false
  | String _ _, "" => false
  end.

(** [k in s]: [k] occurs in [s] at some offset. *)
Fixpoint contains (k s : string) : bool :=
  startswith k s ||
  match s with
  | "" => false
  | String _ s' => contains k s'
  end.

(** The declarative reading of [k in s]. *)
Definition substring_of (k s : string) : Prop :=
  ∃ pre post, s = pre +:+ k +:+ post.

(** [sorted(xs)] on strings: ascending by code point, lexicographically. *)
Definition sorted (xs : list string) : list string := merge_sort String.le xs.

End PyStr.

Import PyStr.

(** [s] is empty or consists of whitespace only. *)
Fixpoint blank (s : string) : bool :=
  match s with
  | "" => true
  | String c s' => is_space c && blank s'
  end.

(** [s] does not begin with a whitespace character. *)
Definition no_lead (s : string) : bool :=
  match s with
  | "" => true
  | String c _ => negb (is_space c)
  end.


(** ** Python values, dictionaries and exceptions *)

(** The values a record field can hold: [None], a [str], or a list of
    strings (the [keywords] field). *)
Inductive pyval :=
  | PNone
  | PStr (s : string)
  | PList (l : list string).

Global Instance pyval_eq_dec : EqDecision pyval.
Proof. solve_decision. Defined.

Abbreviation pdict := (gmap string pyval).

Inductive pyerr := AttributeError | KeyError.

Inductive result (A : Type) :=
  | Ok (a : A)
  | Raise (e : pyerr).
Arguments Ok {A} a.
Arguments Raise {A} e.

Global Instance result_ret : MRet result := λ A a, Ok a.
Global Instance result_bind : MBind result := λ A B f m,
  match m with
  | Ok a => f a
  | Raise e => Raise e
  end.

Global Instance result_fmap : FMap result := λ A B f m,
  match m with
  | Ok a => Ok (f a)
  | Raise e => Raise e
  end.

Definition raises {A} (m : result A) : Prop :=
  match m with Raise _ => True | Ok _ => False end.

(** Truth value of a Python value, as used by [or] and [if]. *)
Definition val_truthy (v : pyval) : bool :=
  match v with
  | PNone => false
  | PStr s => truthy s
  | PList [] => false
  | PList (_ :: _) => true
  end.

(** [x or y] *)
Definition py_or (x y : pyval) : pyval := if val_truthy x then x else y.

(** [d.get(k)] *)
Definition dict_get (d : pdict) (k : string) : pyval := default PNone (d !! k).

(** [d.get(k, dflt)] *)
Definition dict_get_default (d : pdict) (k : string) (dflt : pyval) : pyval :=
  default dflt (d !! k).

(** [d[k]] *)
Definition dict_item (d : pdict) (k : string) : result pyval :=
  match d !! k with
  | Some v => Ok v
  | None => Raise KeyError
  end.

(** Receiver of a [str] method call such as [v.strip()] or [v.lower()]:
    [None] and lists have no such attribute. *)
Definition as_str (v : pyval) : result string :=
  match v with
  | PStr s => Ok s
  | _ => Raise AttributeError
  end.

(** ** The document store *)

(** The collection as [stream()] yields it: document id and fields. *)
Definition store := list (string * pdict).

(** [load_proverbs]: [{"id": doc.id, **doc.to_dict()}] for every document;
    a field named "id" in the document overrides the document id. *)
Definition load_proverbs (st : store) : list pdict :=
  (λ doc, doc.2 ∪ {[ "id" := PStr doc.1 ]}) <$> st.

(** [proverbs_ref.add(doc)] with the identifier the store assigned. *)
Definition store_add (new_id : string) (doc : pdict) (st : store) : store :=
  st ++ [(new_id, doc)].

(** [proverbs_ref.document(doc_id).set(data)]: full overwrite of the document
    with that id, created when absent. *)
Fixpoint store_set (doc_id : string) (data : pdict) (st : store) : store :=
  match st with
  | [] => [(doc_id, data)]
  | (i, d) :: rest =>
      if decide (i = doc_id) then (i, data) :: rest
      else (i, d) :: store_set doc_id data rest
  end.

(** [update_proverb_doc]: an identifier that is not a string makes the
    store call fail; the failure is caught and nothing is written. *)
Definition update_proverb_doc (doc_id : pyval) (data : pdict) (st : store) : store :=
  match doc_id with
  | PStr i => store_set i data st
  | _ => st
  end.

(** ** Normalisation *)

(** [(p.get("text") or "").strip().lower()] *)
Definition norm_text (p : pdict) : result string :=
  s ← as_str (py_or (dict_get p "text") (PStr ""));
  mret (lower (strip s)).

(** The record written by all three write paths. *)
Definition mk_doc (text meaning translation category : string)
    (keywords : list string) : pdict :=
  {[ "text" := PStr text;
     "meaning" := PStr meaning;
     "translation" := PStr translation;
     "category" := PStr category;
     "keywords" := PList keywords ]}.

(** [c or "Uncategorized"] on a string [c]. *)
Definition or_uncategorized (c : string) : string :=
  if truthy c then c else "Uncategorized".

(** ** Query engine *)

(** The loop of [search_proverbs]; [results] is the list being appended to. *)
Fixpoint search_loop (k : string) (search_in_meaning : bool)
    (proverbs results : list pdict) : result (list pdict) :=
  match proverbs with
  | [] => Ok results
  | p :: rest =>
      text ← lower <$> as_str (py_or (dict_get p "text") (PStr ""));
      meaning ← lower <$> as_str (py_or (dict_get p "meaning") (PStr ""));
      if contains k text || (search_in_meaning && contains k meaning)
      then search_loop k search_in_meaning rest (results ++ [p])
      else search_loop k search_in_meaning rest results
  end.

Definition search_proverbs (proverbs : list pdict) (keyword : string)
    (search_in_meaning : bool) : result (list pdict) :=
  let k := strip (lower keyword) in
  if negb (truthy k) then Ok []
  else search_loop k search_in_meaning proverbs [].

(** [(p.get("category") or "Uncategorized").strip()] *)
Definition category_of (p : pdict) : result string :=
  strip <$> as_str (py_or (dict_get p "category") (PStr "Uncategorized")).

Definition categories_from (proverbs : list pdict) : result (list string) :=
  cs ← mapM category_of proverbs;
  mret (sorted (elements (list_to_set cs : gset string))).

(** ** Admin interface *)

(** What a button handler does to the outside world. *)
Inductive action :=
  | StError (msg : string)
  | StoreAdd (doc : pdict)
  | StoreSet (doc_id : pyval) (data : pdict).

(** Handler of the "Add Proverb" button. *)
Definition add_proverb_click (proverbs : list pdict)
    (new_text new_meaning new_translation new_category : string) : result action :=
  existing_texts ← mapM norm_text proverbs;
  if negb (truthy (strip new_text)) || negb (truthy (strip new_meaning))
  then mret (StError "Proverb text and meaning are required.")
  else if bool_decide (lower (strip new_text) ∈ existing_texts)
  then mret (StError "This proverb already exists. It will not be added.")
  else mret (StoreAdd (mk_doc (strip new_text) (strip new_meaning)
                         (strip new_translation)
                         (or_uncategorized (strip new_category))
                         (lower <$> split new_text))).

(** [next((p for p in proverbs if (p.get("text") or "") == sel), None)] *)
Definition select (proverbs : list pdict) (sel : pyval) : option pdict :=
  find (λ p, bool_decide (py_or (dict_get p "text") (PStr "") = sel)) proverbs.

(** [[norm(p) for p in proverbs if p["id"] != selected["id"]]] *)
Fixpoint other_texts (proverbs : list pdict) (selected : pdict) : result (list string) :=
  match proverbs with
  | [] => Ok []
  | p :: rest =>
      pid ← dict_item p "id";
      sid ← dict_item selected "id";
      if bool_decide (pid ≠ sid)
      then t ← norm_text p; ts ← other_texts rest selected; mret (t :: ts)
      else other_texts rest selected
  end.

(** Handler of the "Save Changes" button. *)
Definition save_changes_click (proverbs : list pdict) (selected : pdict)
    (edit_text edit_meaning edit_translation edit_category : string) : result action :=
  others ← other_texts proverbs selected;
  if bool_decide (lower (strip edit_text) ∈ others)
  then mret (StError "Cannot rename: another proverb with that exact text exists.")
  else
    let updated := mk_doc (strip edit_text) (strip edit_meaning)
                     (strip edit_translation)
                     (or_uncategorized (strip edit_category))
                     (lower <$> split edit_text) in
    sid ← dict_item selected "id";
    mret (StoreSet sid updated).

(** ** Bulk importer *)

(** The [existing] dictionary: normalised text to document id, built once
    from the collection before the loop. *)
Fixpoint build_existing (docs : store) (existing : gmap string string)
    : result (gmap string string) :=
  match docs with
  | [] => Ok existing
  | doc :: rest =>
      key ← norm_text doc.2;
      build_existing rest (<[ key := doc.1 ]> existing)
  end.

(** One iteration of the import loop: [None] for [continue], [Some data]
    for a call of [proverbs_ref.add(data)]. *)
Definition import_candidate (existing : gmap string string) (p : pdict)
    : result (option pdict) :=
  text ← strip <$> as_str (py_or (dict_get p "text") (PStr ""));
  if negb (truthy text) then mret None
  else
    let key := lower text in
    if bool_decide (is_Some (existing !! key)) then mret None
    else
      meaning ← strip <$> as_str (dict_get_default p "meaning" (PStr ""));
      translation ← strip <$> as_str (dict_get_default p "translation" (PStr ""));
      category ← strip <$> as_str (dict_get_default p "category" (PStr ""));
      mret (Some (mk_doc text meaning translation (or_uncategorized category)
                    (lower <$> split text))).

(** The state of an import run: the documents handed to the store so far,
    the counter, and the exception that ended the run, if any. *)
Record import_run := {
  added : list pdict;
  added_count : nat;
  failure : option pyerr
}.

Fixpoint import_loop (existing : gmap string string) (proverbs : list pdict)
    (docs : list pdict) (count : nat) : import_run :=
  match proverbs with
  | [] => {| added := docs; added_count := count; failure := None |}
  | p :: rest =>
      match import_candidate existing p with
      | Raise e => {| added := docs; added_count := count; failure := Some e |}
      | Ok None => import_loop existing rest docs count
      | Ok (Some data) => import_loop existing rest (docs ++ [data]) (count + 1)
      end
  end.

(** The script from the reading of the collection to the end of the loop.
    When reading the collection raises, the script stops before the loop:
    nothing is handed to the store, and the counter, which the source binds
    only after that, is recorded as 0 without being a value of the source. *)
Definition upload_json_to_firestore (st : store) (proverbs : list pdict) : import_run :=
  match build_existing st ∅ with
  | Raise e => {| added := []; added_count := 0; failure := Some e |}
  | Ok existing => import_loop existing proverbs [] 0
  end.

(** ** Write operations on the store *)

Inductive write_op :=
  | AdminAdd (new_text new_meaning new_translation new_category : string)
  | AdminEdit (sel : pyval)
      (edit_text edit_meaning edit_translation edit_category : string)
  | BulkImport (candidates : list pdict).

(** The store after a handler ran. [proverbs_ref.add] picks an identifier
    that no document of the collection has. *)
Inductive commits : store → result action → store → Prop :=
  | commits_raise st e : commits st (Raise e) st
  | commits_error st msg : commits st (Ok (StError msg)) st
  | commits_add st doc new_id :
      new_id ∉ st.*1 → commits st (Ok (StoreAdd doc)) (store_add new_id doc st)
  | commits_set st doc_id data :
      commits st (Ok (StoreSet doc_id data)) (update_proverb_doc doc_id data st).

Inductive step : store → write_op → store → Prop :=
  | step_admin_add st t m tr c st' :
      commits st (add_proverb_click (load_proverbs st) t m tr c) st' →
      step st (AdminAdd t m tr c) st'
  | step_admin_edit st sel selected t m tr c st' :
      select (load_proverbs st) sel = Some selected →
      commits st (save_changes_click (load_proverbs st) selected t m tr c) st' →
      step st (AdminEdit sel t m tr c) st'
  | step_bulk_import st candidates new_ids :
      length new_ids = length (added (upload_json_to_firestore st candidates)) →
      NoDup new_ids →
      (∀ i, i ∈ new_ids → i ∉ st.*1) →
      step st (BulkImport candidates)
        (st ++ zip new_ids (added (upload_json_to_firestore st candidates))).

(** The uniqueness invariant: the normalised texts of the stored records
    are pairwise distinct. *)
Definition unique_texts (st : store) : Prop :=
  ∃ keys, mapM norm_text st.*2 = Ok keys ∧ NoDup keys.

(** Runs of write operations. *)
Inductive steps : store → list write_op → store → Prop :=
  | steps_nil st : steps st [] st
  | steps_cons st op st1 ops st2 :
      step st op st1 → steps st1 ops st2 → steps st (op :: ops) st2.

(** The operations of the admin interface. *)
Definition is_admin (op : write_op) : bool :=
  match op with
  | BulkImport _ => false
  | _ => true
  end.

(** A collection as the store keeps it: document ids are distinct, and no
    document has a field named "id". *)
Definition store_ok (st : store) : Prop :=
  NoDup st.*1 ∧ Forall (λ d : pdict, d !! "id" = None) st.*2.

(** ** Record shape and the vocabulary of the properties *)

Definition str_or_none (v : pyval) : bool :=
  match v with
  | PList _ => false
  | _ => true
  end.

(** Field [k] of [p] is missing, [None] or a string. *)
Definition field_ok (p : pdict) (k : string) : bool :=
  match p !! k with
  | Some v => str_or_none v
  | None => true
  end.

(** The string held by field [k]; the empty string when the field is
    missing or [None]. *)
Definition field_str (p : pdict) (k : string) : string :=
  match p !! k with
  | Some (PStr s) => s
  | _ => ""
  end.

(** A record the search can read. *)
Definition searchable (p : pdict) : bool :=
  field_ok p "text" && field_ok p "meaning".

(** The record matches keyword [k]: its lowercased text contains [k], or
    its lowercased meaning does and meanings are searched. *)
Definition matches_keyword (k : string) (in_meaning : bool) (p : pdict) : Prop :=
  substring_of k (lower (field_str p "text")) ∨
  (in_meaning = true ∧ substring_of k (lower (field_str p "meaning"))).

Definition rec_khomo : pdict := {[ "text" := PStr "Khomo" ]}.

(** The category the listing shows for a record: the sentinel when the
    field is missing, [None] or the empty string, the trimmed field
    otherwise. *)
Definition listed_category (p : pdict) : string :=
  match p !! "category" with
  | Some (PStr (String c s)) => strip (String c s)
  | _ => "Uncategorized"
  end.

(** The same with every blank category replaced by the sentinel. *)
Definition category_blank_as_sentinel (p : pdict) : string :=
  if blank (field_str p "category") then "Uncategorized"
  else strip (field_str p "category").

Definition rec_blank_category : pdict := {[ "category" := PStr " " ]}.

(** The trimmed-lowercased text of a record. *)
Definition text_key (p : pdict) : string := lower (strip (field_str p "text")).

(** A loaded record: it carries an "id" and its text is readable. *)
Definition identified (p : pdict) : bool :=
  bool_decide (is_Some (p !! "id")) && field_ok p "text".

(** Two stored records that differ in letter case only. *)
Definition store_case_twins : store :=
  [ ("a", {[ "text" := PStr "Khomo ke thota" ]});
    ("b", {[ "text" := PStr "khomo ke thota" ]}) ].

(** Field [k] of [p] is missing or a string. *)
Definition str_or_missing (p : pdict) (k : string) : bool :=
  match p !! k with
  | None | Some (PStr _) => true
  | Some _ => false
  end.

(** A candidate in the import file's format: optional string fields; a
    null text is tolerated as well. *)
Definition candidate_ok (p : pdict) : bool :=
  field_ok p "text" && str_or_missing p "meaning"
  && str_or_missing p "translation" && str_or_missing p "category".

(** The candidate has text left after trimming, and its trimmed-lowercased
    text is none of [keys]. *)
Definition admissible (keys : list string) (p : pdict) : Prop :=
  strip (field_str p "text") ≠ "" ∧ text_key p ∉ keys.

Global Instance admissible_dec keys p : Decision (admissible keys p).
Proof. unfold admissible. apply _. Defined.

(** The record the importer writes for a candidate. *)
Definition imported_doc (p : pdict) : pdict :=
  mk_doc (strip (field_str p "text"))
    (strip (field_str p "meaning"))
    (strip (field_str p "translation"))
    (or_uncategorized (strip (field_str p "category")))
    (lower <$> split (strip (field_str p "text"))).

(** The batch of the import scenario. *)
Definition cand_khomo : pdict := {[ "text" := PStr "Khomo ke thota" ]}.
Definition cand_empty : pdict := {[ "text" := PStr "" ]}.
Definition cand_khomo_lower : pdict := {[ "text" := PStr "khomo ke thota" ]}.
Definition batch_khomo : list pdict := [cand_khomo; cand_empty; cand_khomo_lower].

(** A candidate whose text and meaning are both null. *)
Definition cand_nulls : pdict := {[ "text" := PNone; "meaning" := PNone ]}.

(** A candidate with text and a null meaning, and a plain candidate. *)
Definition cand_tau_null_meaning : pdict := {[ "text" := PStr "Tau"; "meaning" := PNone ]}.
Definition cand_ntja : pdict := {[ "text" := PStr "Ntja" ]}.

(** Records and collections of a small admin session. *)
Definition doc_tau : pdict := mk_doc "Tau" "m" "" "Uncategorized" ["tau"].
Definition doc_tau_thaba : pdict :=
  mk_doc "Tau ea thaba" "m" "" "Wisdom" ["tau"; "ea"; "thaba"].
Definition doc_khomo : pdict :=
  mk_doc "Khomo ke thota" "Tlhaloso" "" "Uncategorized" ["khomo"; "ke"; "thota"].
Definition store_two : store := [("a", doc_khomo); ("b", doc_tau)].
Definition store_two_edited : store := [("a", doc_khomo); ("b", doc_tau_thaba)].

(** The stored keywords are the lowercased tokens of the stored text. *)
Definition keywords_in_sync (doc : pdict) : Prop :=
  ∃ text, doc !! "text" = Some (PStr text) ∧
          doc !! "keywords" = Some (PList (lower <$> split text)).


(** A collection with a single record, and that record as loaded. *)
Definition store_one : store :=
  [ ("a", mk_doc "Khomo ke thota" "Tlhaloso" "" "Uncategorized" ["khomo"; "ke"; "thota"]) ].
Definition loaded_one : pdict :=
  mk_doc "Khomo ke thota" "Tlhaloso" "" "Uncategorized" ["khomo"; "ke"; "thota"]
    ∪ {[ "id" := PStr "a" ]}.

(** ** Further parts of the application *)

(** [(p.get(k) or dflt)] is a string: the field is anything but a non-empty
    list. *)
Definition readable (p : pdict) (k : string) : bool :=
  match p !! k with
  | Some (PList (_ :: _)) => false
  | _ => true
  end.

Definition search_readable (p : pdict) : bool :=
  readable p "text" && readable p "meaning".

(** [s] has no whitespace character. *)
Fixpoint no_space (s : string) : bool :=
  match s with
  | "" => true
  | String c s' => negb (is_space c) && no_space s'
  end.

(** The filter of the category page:
    [[p for p in proverbs if (p.get("category") or "Uncategorized").strip() == c]] *)
Fixpoint filter_by_category (proverbs : list pdict) (c : string) : result (list pdict) :=
  match proverbs with
  | [] => Ok []
  | p :: rest =>
      pc ← category_of p;
      if bool_decide (pc = c)
      then filtered ← filter_by_category rest c; mret (p :: filtered)
      else filter_by_category rest c
  end.

(** What the "Filter by Category" page shows for the selected entry [c] of
    the category box: the info message when there is no category, nothing
    when [c] is falsy, the count and the filtered records otherwise. *)
Inductive category_view :=
  | NoCategories
  | NothingShown
  | Shown (count : nat) (filtered : list pdict).

Definition category_page (proverbs : list pdict) (c : string) : result category_view :=
  cats ← categories_from proverbs;
  match cats with
  | [] => mret NoCategories
  | _ :: _ =>
      if truthy c
      then filtered ← filter_by_category proverbs c;
           mret (Shown (length filtered) filtered)
      else mret NothingShown
  end.

(** The password check of the admin page: [admin_pw] is
    [st.secrets.get("ADMIN_PASSWORD")], [password] the text typed in.
    [not_configured] tells whether the warning "Admin password not
    configured" is shown; [access] is what follows the password box: the
    admin forms, the "Invalid password" error, or neither. *)
Inductive gate := Granted | Invalid | Idle.

Record admin_view := {
  not_configured : bool;
  access : gate
}.

Definition admin_gate (admin_pw : pyval) (password : string) : admin_view :=
  {| not_configured := negb (val_truthy admin_pw);
     access :=
       if val_truthy admin_pw && bool_decide (PStr password = admin_pw) then Granted
       else if truthy password then Invalid
       else Idle |}.

(** The entries of the edit box: [[p.get("text") or "" for p in proverbs]] *)
Definition choice_texts (proverbs : list pdict) : list pyval :=
  (λ p, py_or (dict_get p "text") (PStr "")) <$> proverbs.

(** [proverbs_ref.document(doc_id).delete()] *)
Definition store_delete (doc_id : string) (st : store) : store :=
  filter (λ e : string * pdict, e.1 ≠ doc_id) (st : list (string * pdict)).

(** [delete_proverb_doc]: as for [update_proverb_doc], a failing store call
    is caught and leaves the collection as it is. *)
Definition delete_proverb_doc (doc_id : pyval) (st : store) : store :=
  match doc_id with
  | PStr i => store_delete i st
  | _ => st
  end.

(** Handler of the "Delete Proverb" button: the store after the click, or
    the exception of [selected["id"]]. *)
Definition delete_proverb_click (selected : pdict) (st : store) : result store :=
  sid ← dict_item selected "id";
  mret (delete_proverb_doc sid st).

(** A click on "Delete Proverb" with entry [sel] chosen in the edit box. *)
Inductive delete_step : store → pyval → store → Prop :=
  | delete_step_done st sel selected st' :
      select (load_proverbs st) sel = Some selected →
      delete_proverb_click selected st = Ok st' →
      delete_step st sel st'
  | delete_step_raise st sel selected e :
      select (load_proverbs st) sel = Some selected →
      delete_proverb_click selected st = Raise e →
      delete_step st sel st.

(** The three buttons of the admin page, and runs of clicks on them. *)
Inductive admin_click :=
  | ClickAdd (new_text new_meaning new_translation new_category : string)
  | ClickSave (sel : pyval)
      (edit_text edit_meaning edit_translation edit_category : string)
  | ClickDelete (sel : pyval).

Inductive admin_step : store → admin_click → store → Prop :=
  | admin_step_add st t m tr c st' :
      step st (AdminAdd t m tr c) st' → admin_step st (ClickAdd t m tr c) st'
  | admin_step_save st sel t m tr c st' :
      step st (AdminEdit sel t m tr c) st' → admin_step st (ClickSave sel t m tr c) st'
  | admin_step_delete st sel st' :
      delete_step st sel st' → admin_step st (ClickDelete sel) st'.

Inductive admin_run : store → list admin_click → store → Prop :=
  | admin_run_nil st : admin_run st [] st
  | admin_run_cons st click st1 clicks st2 :
      admin_step st click st1 → admin_run st1 clicks st2 →
      admin_run st (click :: clicks) st2.

(** A record as the write paths store it: exactly the five fields, and the
    four text fields are strings without leading or trailing whitespace. *)
Definition trimmed_record (doc : pdict) : Prop :=
  dom doc = ({[ "text"; "meaning"; "translation"; "category"; "keywords" ]} : gset string) ∧
  ∀ k, k ∈ ["text"; "meaning"; "translation"; "category"] →
       ∃ s, doc !! k = Some (PStr s) ∧ strip s = s.

(** What the "Search by Keyword" page shows for the typed keyword: nothing
    for the empty keyword, the count and the matches, or the warning that
    nothing matched. *)
Inductive search_view :=
  | NoSearch
  | Found (count : nat) (matches : list pdict)
  | NoMatches.

Definition search_page (proverbs : list pdict) (keyword : string)
    (search_meaning : bool) : result search_view :=
  if truthy keyword
  then matches ← search_proverbs proverbs keyword search_meaning;
       match matches with
       | _ :: _ => mret (Found (length matches) matches)
       | [] => mret NoMatches
       end
  else mret NoSearch.

(** * Facts about the string operations *)

Example strip_ex : strip "  Khomo ke thota  " = "Khomo ke thota".
Proof. reflexivity. Qed.
Example lower_ex : lower "Khomo Ke-Thota 9" = "khomo ke-thota 9".
Proof. reflexivity. Qed.
Example split_ex : split "  Khomo   ke thota " = ["Khomo"; "ke"; "thota"].
Proof. reflexivity. Qed.
Example split_blank_ex : split "   " = [].
Proof. reflexivity. Qed.
Example contains_ex : contains "ke" "khomo ke thota" = true ∧ contains "" "" = true
                      ∧ contains "tau" "khomo" = false.
Proof. repeat split; reflexivity. Qed.
Example sorted_ex : sorted ["wisdom"; "Animals"; "Uncategorized"] = ["Animals"; "Uncategorized"; "wisdom"].
Proof. vm_compute. reflexivity. Qed.

Section string_facts.
Implicit Types (s t k cur : string) (c : ascii).

Lemma app_nil_l_s s : "" +:+ s = s.
Proof. reflexivity. Qed.

Lemma app_cons_s c s t : String c s +:+ t = String c (s +:+ t).
Proof. reflexivity. Qed.

Lemma app_nil_r_s s : s +:+ "" = s.
Proof. induction s as [|c s IH]; [done|]. by rewrite app_cons_s, IH. Qed.

Lemma app_assoc_s s t k : (s +:+ t) +:+ k = s +:+ (t +:+ k).
Proof. induction s as [|c s IH]; [done|]. by rewrite !app_cons_s, IH. Qed.

Lemma truthy_false s : truthy s = false ↔ s = "".
Proof. by destruct s. Qed.

Lemma truthy_app_char cur c : truthy (cur +:+ String c "") = true.
Proof. by destruct cur. Qed.

(** Lowercasing never turns a character into or out of whitespace. *)
Lemma is_space_lower_char c : is_space (lower_char c) = is_space c.
Proof. by destruct c as [[] [] [] [] [] [] [] []]. Qed.

Lemma lower_char_idemp c : lower_char (lower_char c) = lower_char c.
Proof. by destruct c as [[] [] [] [] [] [] [] []]. Qed.

Lemma lower_idemp s : lower (lower s) = lower s.
Proof. induction s as [|c s IH]; [done|]. simpl. by rewrite lower_char_idemp, IH. Qed.

Lemma lower_app s t : lower (s +:+ t) = lower s +:+ lower t.
Proof. induction s as [|c s IH]; [done|]. rewrite app_cons_s. simpl. by rewrite IH. Qed.

Lemma blank_lower s : blank (lower s) = blank s.
Proof. induction s as [|c s IH]; [done|]. simpl. by rewrite is_space_lower_char, IH. Qed.

(** ** [strip] *)

Lemma lstrip_no_lead s : no_lead (lstrip s) = true.
Proof.
  induction s as [|c s IH]; [done|]. simpl.
  destruct (is_space c) eqn:Hc; [done|]. simpl. by rewrite Hc.
Qed.

Lemma lstrip_id s : no_lead s = true → lstrip s = s.
Proof. destruct s as [|c s]; [done|]. simpl. by destruct (is_space c). Qed.

Lemma rstrip_no_lead s : no_lead s = true → no_lead (rstrip s) = true.
Proof.
  destruct s as [|c s]; [done|]. simpl. intros Hc.
  destruct (rstrip s); [|done].
  destruct (is_space c) eqn:E; [done|]. simpl. by rewrite E.
Qed.

Lemma rstrip_idemp s : rstrip (rstrip s) = rstrip s.
Proof.
  induction s as [|c s IH]; [done|]. simpl.
  destruct (rstrip s) as [|d r] eqn:Hr.
  - destruct (is_space c) eqn:Hc; [done|]. simpl. by rewrite Hc.
  - change (rstrip (String c (String d r))) with
      (match rstrip (String d r) with
       | "" => if is_space c then "" else String c ""
       | r' => String c r'
       end).
    by rewrite IH.
Qed.

Lemma lstrip_blank s : lstrip s = "" ↔ blank s = true.
Proof.
  induction s as [|c s IH]; [done|]. simpl.
  destruct (is_space c); simpl; [done|]. split; discriminate.
Qed.

Lemma rstrip_blank s : rstrip s = "" ↔ blank s = true.
Proof.
  induction s as [|c s IH]; [done|]. simpl.
  destruct (rstrip s) as [|d r].
  - destruct (is_space c); simpl; [tauto|]. split; [discriminate|done].
  - split; [discriminate|]. intros [_ Hs]%andb_true_iff.
    apply IH in Hs. discriminate.
Qed.

Lemma blank_lstrip s : blank (lstrip s) = blank s.
Proof.
  induction s as [|c s IH]; [done|]. simpl.
  destruct (is_space c) eqn:Hc; simpl; [done|]. by rewrite Hc.
Qed.

(** [strip] leaves nothing exactly when the string is blank. *)
Lemma strip_empty_iff s : strip s = "" ↔ blank s = true.
Proof. unfold strip. by rewrite rstrip_blank, blank_lstrip. Qed.

Lemma strip_idemp s : strip (strip s) = strip s.
Proof.
  unfold strip.
  rewrite (lstrip_id (rstrip (lstrip s))).
  - apply rstrip_idemp.
  - apply rstrip_no_lead, lstrip_no_lead.
Qed.

Lemma lower_lstrip s : lower (lstrip s) = lstrip (lower s).
Proof.
  induction s as [|c s IH]; [done|]. simpl.
  rewrite is_space_lower_char. by destruct (is_space c).
Qed.

Lemma lower_rstrip s : lower (rstrip s) = rstrip (lower s).
Proof.
  induction s as [|c s IH]; [done|]. simpl.
  rewrite <-IH, is_space_lower_char.
  destruct (rstrip s); simpl; [|done]. by destruct (is_space c).
Qed.

(** Trimming and lowercasing commute. *)
Lemma lower_strip s : lower (strip s) = strip (lower s).
Proof. unfold strip. by rewrite lower_rstrip, lower_lstrip. Qed.

(** ** [split] *)

Lemma split_go_lstrip s : split_go "" (lstrip s) = split_go "" s.
Proof.
  induction s as [|c s IH]; [done|]. simpl.
  destruct (is_space c) eqn:Hc; simpl; [done|]. by rewrite Hc.
Qed.

Lemma split_go_blank cur s :
  blank s = true → split_go cur s = if truthy cur then [cur] else [].
Proof.
  revert cur. induction s as [|c s IH]; intros cur; [done|]. simpl.
  intros [-> Hs]%andb_true_iff. rewrite (IH "" Hs). simpl.
  by destruct (truthy cur).
Qed.

Lemma split_go_cons cur c s :
  split_go cur (String c s) =
    if is_space c
    then (if truthy cur then cur :: split_go "" s else split_go "" s)
    else split_go (cur +:+ String c "") s.
Proof. reflexivity. Qed.

Lemma split_go_rstrip cur s : split_go cur (rstrip s) = split_go cur s.
Proof.
  revert cur. induction s as [|c s IH]; intros cur; [done|].
  rewrite (split_go_cons cur c s). simpl rstrip.
  destruct (rstrip s) as [|d r] eqn:Hr.
  - pose proof (proj1 (rstrip_blank s) Hr) as Hb.
    destruct (is_space c) eqn:Hc.
    + rewrite (split_go_blank "" s Hb). simpl. by destruct (truthy cur).
    + rewrite split_go_cons, Hc.
      rewrite (split_go_blank _ s Hb). simpl. by rewrite !truthy_app_char.
  - rewrite split_go_cons. by rewrite !IH.
Qed.

(** Tokenising the trimmed text gives the tokens of the text. *)
Lemma split_strip s : split (strip s) = split s.
Proof. unfold split, strip. by rewrite split_go_rstrip, split_go_lstrip. Qed.

(** ** The [in] operator *)

Lemma startswith_spec k s : startswith k s = true ↔ ∃ post, s = k +:+ post.
Proof.
  revert s. induction k as [|a k IH]; intros s; simpl.
  - split; [by exists s|done].
  - destruct s as [|b s].
    + split; [done|]. by intros [post ?].
    + destruct (ascii_dec a b) as [->|Hne].
      * rewrite IH. split; intros [post Hp]; exists post.
        -- by rewrite app_cons_s, <-Hp.
        -- rewrite app_cons_s in Hp. by simplify_eq.
      * split; [done|]. intros [post Hp]. rewrite app_cons_s in Hp. by simplify_eq.
Qed.

(** [contains] decides the substring relation. *)
Lemma contains_spec k s : contains k s = true ↔ substring_of k s.
Proof.
  unfold substring_of. induction s as [|c s IH]; simpl.
  - rewrite orb_false_r, startswith_spec. split.
    + intros [post Hp]. by exists "", post.
    + intros ([|??] & post & Hp); [by exists post|done].
  - rewrite orb_true_iff, startswith_spec, IH. split.
    + intros [[post Hp]|(pre & post & Hp)].
      * by exists "", post.
      * exists (String c pre), post. by rewrite app_cons_s, <-Hp.
    + intros ([|a pre] & post & Hp).
      * left. by exists post.
      * right. exists pre, post. rewrite app_cons_s in Hp. by simplify_eq.
Qed.

Global Instance substring_of_dec k s : Decision (substring_of k s).
Proof.
  destruct (contains k s) eqn:Hc.
  - left. by apply contains_spec.
  - right. intros H%contains_spec. congruence.
Defined.

End string_facts.

(** * Facts about values, dictionaries and the exception monad *)

Section value_facts.
Implicit Types (p : pdict) (k : string).

Lemma get_or_field p k :
  field_ok p k = true →
  as_str (py_or (dict_get p k) (PStr "")) = Ok (field_str p k).
Proof.
  unfold field_ok, field_str, dict_get, py_or.
  destruct (p !! k) as [[|s|l]|]; simpl; try done.
  by destruct s.
Qed.

Lemma norm_text_ok p :
  field_ok p "text" = true → norm_text p = Ok (lower (strip (field_str p "text"))).
Proof. intros H. unfold norm_text. by rewrite (get_or_field _ _ H). Qed.

Global Instance matches_keyword_dec k b p : Decision (matches_keyword k b p).
Proof. unfold matches_keyword. apply _. Defined.

Lemma matches_keyword_bool k b p :
  contains k (lower (field_str p "text"))
  || (b && contains k (lower (field_str p "meaning"))) = true
  ↔ matches_keyword k b p.
Proof.
  unfold matches_keyword.
  rewrite orb_true_iff, andb_true_iff, !contains_spec. tauto.
Qed.

End value_facts.

(** * Keyword search *)

Lemma search_loop_filter k b ps acc :
  forallb searchable ps = true →
  search_loop k b ps acc = Ok (acc ++ filter (matches_keyword k b) ps).
Proof.
  revert acc. induction ps as [|p ps IH]; intros acc Hps; simpl.
  - by rewrite app_nil_r.
  - apply andb_true_iff in Hps as [[Ht Hm]%andb_true_iff Hps].
    rewrite (get_or_field _ _ Ht), (get_or_field _ _ Hm). simpl.
    rewrite filter_cons.
    destruct (decide (matches_keyword k b p)) as [Hp|Hp].
    + rewrite (proj2 (matches_keyword_bool k b p) Hp).
      by rewrite IH, <-app_assoc.
    + destruct (contains _ _ || _) eqn:Hc.
      * by apply matches_keyword_bool in Hc.
      * by apply IH.
Qed.

(** C6, as the code has it: a blank keyword gives the empty list; any other
    keyword is lowercased and trimmed, and the search returns, in their
    original order, exactly the records whose lowercased text contains it, or
    whose lowercased meaning contains it when meanings are searched. *)
Theorem search_proverbs_spec (proverbs : list pdict) (keyword : string) (search_in_meaning : bool) :
  (blank keyword = true → search_proverbs proverbs keyword search_in_meaning = Ok []) ∧
  (blank keyword = false → forallb searchable proverbs = true →
   search_proverbs proverbs keyword search_in_meaning =
     Ok (filter (matches_keyword (strip (lower keyword)) search_in_meaning) proverbs)).
Proof.
  unfold search_proverbs. split.
  - intros Hb. rewrite <-blank_lower in Hb. apply strip_empty_iff in Hb.
    by rewrite Hb.
  - intros Hb Hps.
    destruct (truthy (strip (lower keyword))) eqn:Hk; simpl.
    + by rewrite search_loop_filter.
    + apply truthy_false, strip_empty_iff in Hk. rewrite blank_lower in Hk. congruence.
Qed.

Lemma search_proverbs_spec_witness :
  search_proverbs [rec_khomo] "   " true = Ok [] ∧
  search_proverbs [rec_khomo; ∅; rec_khomo] " khomo " false = Ok [rec_khomo; rec_khomo].
Proof.
  split.
  - apply (proj1 (search_proverbs_spec [rec_khomo] "   " true)). reflexivity.
  - rewrite (proj2 (search_proverbs_spec [rec_khomo; ∅; rec_khomo] " khomo " false));
      [|reflexivity|reflexivity].
    vm_compute. reflexivity.
Defined.

(** The keyword is trimmed before matching: [" khomo "] finds the record
    "Khomo", whose lowercased text does not contain the lowercased keyword
    [" khomo "] itself. *)
Lemma search_untrimmed_keyword_counterexample :
  blank " khomo " = false ∧
  search_proverbs [rec_khomo] " khomo " false = Ok [rec_khomo] ∧
  ¬ matches_keyword (lower " khomo ") false rec_khomo.
Proof.
  split; [reflexivity|]. split; [vm_compute; reflexivity|].
  intros [H|[H _]]; [|discriminate].
  apply contains_spec in H. vm_compute in H. discriminate.
Qed.

(** * Category listing *)

Lemma mapM_result_ok {A B} (f : A → result B) (g : A → B) (l : list A) :
  (∀ x, x ∈ l → f x = Ok (g x)) → mapM f l = Ok (g <$> l).
Proof.
  induction l as [|x l IH]; intros Hl; [done|]. simpl.
  rewrite (Hl x) by left. simpl.
  rewrite IH; [done|]. intros y Hy. apply Hl. by right.
Qed.

Lemma category_of_ok p :
  field_ok p "category" = true → category_of p = Ok (listed_category p).
Proof.
  unfold field_ok, category_of, listed_category, dict_get, py_or.
  destruct (p !! "category") as [[|[|c s]|l]|]; simpl; done.
Qed.

(** C8, as the code has it: the listing is duplicate-free, ascending, and
    holds exactly the records' categories, where a missing, null or empty
    category counts as "Uncategorized" and any other category is trimmed. *)
Theorem categories_from_spec (proverbs : list pdict) :
  forallb (λ p, field_ok p "category") proverbs = true →
  ∃ cats, categories_from proverbs = Ok cats ∧
    NoDup cats ∧ StronglySorted String.le cats ∧
    ∀ c, c ∈ cats ↔ ∃ p, p ∈ proverbs ∧ c = listed_category p.
Proof.
  intros Hps. unfold categories_from.
  rewrite (mapM_result_ok category_of listed_category).
  2:{ intros p Hp. apply category_of_ok.
      rewrite forallb_forall in Hps. by apply Hps, list_elem_of_In. }
  eexists. split; [reflexivity|]. unfold sorted. split; [|split].
  - rewrite merge_sort_Permutation. apply NoDup_elements.
  - apply (StronglySorted_merge_sort String.le).
  - intros c. rewrite merge_sort_Permutation, elem_of_elements,
      elem_of_list_to_set, list_elem_of_fmap.
    split; intros (p & H1 & H2); by exists p.
Qed.

Lemma categories_from_spec_witness :
  ∃ cats,
    categories_from [ {[ "category" := PStr "wisdom" ]}; ∅;
                      {[ "category" := PStr " Animals " ]};
                      {[ "category" := PStr "wisdom" ]} ] = Ok cats ∧
    cats = ["Animals"; "Uncategorized"; "wisdom"].
Proof.
  destruct (categories_from_spec
              [ {[ "category" := PStr "wisdom" ]}; ∅;
                {[ "category" := PStr " Animals " ]};
                {[ "category" := PStr "wisdom" ]} ])
    as (cats & Hc & _); [reflexivity|].
  exists cats. split; [exact Hc|].
  vm_compute in Hc. by injection Hc.
Defined.

(** A whitespace-only category is truthy, so the sentinel is not
    substituted and the listing shows the empty string. *)
Lemma categories_whitespace_counterexample :
  categories_from [rec_blank_category] = Ok [""] ∧
  category_blank_as_sentinel rec_blank_category = "Uncategorized" ∧
  category_blank_as_sentinel rec_blank_category ∉ [""].
Proof.
  split; [vm_compute; reflexivity|]. split; [reflexivity|].
  rewrite list_elem_of_singleton. vm_compute. discriminate.
Qed.

(** * Duplicate check of the edit form *)

Lemma other_texts_ok ps selected sid :
  selected !! "id" = Some sid →
  forallb identified ps = true →
  other_texts ps selected =
    Ok (text_key <$> filter (λ p, p !! "id" ≠ Some sid) ps).
Proof.
  intros Hsel. induction ps as [|p ps IH]; intros Hps; [done|].
  apply andb_true_iff in Hps as [[Hid Ht]%andb_true_iff Hps].
  apply bool_decide_eq_true in Hid as [pid Hpid].
  simpl. unfold dict_item at 1 2. rewrite Hpid, Hsel. simpl.
  rewrite filter_cons, Hpid, (IH Hps).
  destruct (decide (pid = sid)) as [->|Hne].
  - rewrite bool_decide_eq_false_2 by (intros H; by apply H).
    by rewrite decide_False by (intros H; by apply H).
  - rewrite bool_decide_eq_true_2 by done.
    rewrite decide_True by congruence.
    by rewrite (norm_text_ok _ Ht).
Qed.

(** C9, as the code has it: on a record list in which every record carries
    an "id" and has a text that is a string, null or missing, saving an edit
    of a record of the list is rejected as a duplicate exactly when some
    record with another id has the edited text's trimmed-lowercased form; an
    edit that keeps the record's own text passes whenever no record with
    another id shares that text. *)
Theorem save_changes_duplicate_check (proverbs : list pdict) (selected : pdict)
    (edit_text edit_meaning edit_translation edit_category : string) :
  forallb identified proverbs = true →
  selected ∈ proverbs →
  (save_changes_click proverbs selected edit_text edit_meaning edit_translation edit_category
     = Ok (StError "Cannot rename: another proverb with that exact text exists.")
   ↔ ∃ p, p ∈ proverbs ∧ p !! "id" ≠ selected !! "id" ∧
          text_key p = lower (strip edit_text)) ∧
  (field_str selected "text" = edit_text →
   (∀ p, p ∈ proverbs → p !! "id" ≠ selected !! "id" → text_key p ≠ text_key selected) →
   ∃ sid, save_changes_click proverbs selected edit_text edit_meaning edit_translation edit_category
     = Ok (StoreSet sid (mk_doc (strip edit_text) (strip edit_meaning)
                           (strip edit_translation)
                           (or_uncategorized (strip edit_category))
                           (lower <$> split edit_text)))).
Proof.
  intros Hps Hin.
  assert (∃ sid, selected !! "id" = Some sid) as [sid Hsid].
  { rewrite forallb_forall in Hps.
    apply list_elem_of_In, Hps, andb_true_iff in Hin as [Hid _].
    by apply bool_decide_eq_true in Hid. }
  assert (∀ key, key ∈ text_key <$> filter (λ p, p !! "id" ≠ Some sid) proverbs
            ↔ ∃ p, p ∈ proverbs ∧ p !! "id" ≠ Some sid ∧ text_key p = key)
    as Hmem.
  { intros key. rewrite list_elem_of_fmap. split.
    - intros (p & -> & [Hne Hp]%list_elem_of_filter). by exists p.
    - intros (p & Hp & Hne & <-). exists p. split; [done|].
      by apply list_elem_of_filter. }
  unfold save_changes_click.
  rewrite (other_texts_ok _ _ _ Hsid Hps). simpl.
  unfold dict_item. rewrite Hsid. simpl. split.
  - rewrite <-Hmem. case_bool_decide; [done|]. split; [discriminate|done].
  - intros Hown Hothers. exists sid.
    rewrite bool_decide_eq_false_2; [done|].
    intros (p & Hp & Hne & Hkey)%Hmem.
    apply (Hothers p Hp Hne). unfold text_key at 2. by rewrite Hown.
Qed.

Lemma save_changes_duplicate_check_witness :
  save_changes_click (load_proverbs store_case_twins)
    ({[ "text" := PStr "khomo ke thota" ]} ∪ {[ "id" := PStr "b" ]})
    " KHOMO ke thota" "m" "" ""
  = Ok (StError "Cannot rename: another proverb with that exact text exists.").
Proof.
  apply (save_changes_duplicate_check (load_proverbs store_case_twins)
           ({[ "text" := PStr "khomo ke thota" ]} ∪ {[ "id" := PStr "b" ]})
           " KHOMO ke thota" "m" "" "").
  - reflexivity.
  - right. left.
  - exists ({[ "text" := PStr "Khomo ke thota" ]} ∪ {[ "id" := PStr "a" ]}).
    split; [left|]. split; [vm_compute; discriminate|reflexivity].
Defined.

(** In a store that already holds two records with the same normalised
    text, re-saving one of them with its own text is rejected. *)
Lemma save_own_text_counterexample :
  select (load_proverbs store_case_twins) (PStr "Khomo ke thota")
    = Some ({[ "text" := PStr "Khomo ke thota" ]} ∪ {[ "id" := PStr "a" ]}) ∧
  save_changes_click (load_proverbs store_case_twins)
    ({[ "text" := PStr "Khomo ke thota" ]} ∪ {[ "id" := PStr "a" ]})
    "Khomo ke thota" "" "" ""
  = Ok (StError "Cannot rename: another proverb with that exact text exists.").
Proof. split; vm_compute; reflexivity. Qed.

(** * Bulk importer *)

Lemma mapM_result_cons_inv {A B} (f : A → result B) x l ks :
  mapM f (x :: l) = Ok ks →
  ∃ y ks', f x = Ok y ∧ mapM f l = Ok ks' ∧ ks = y :: ks'.
Proof.
  simpl. destruct (f x) as [y|e]; simpl; [|done].
  destruct (mapM f l) as [ks'|e]; simpl; [|done].
  intros [= <-]. by exists y, ks'.
Qed.

(** The [existing] dictionary has exactly the normalised texts of the
    collection as keys. *)
Lemma build_existing_ok (st : store) (acc : gmap string string) keys :
  mapM norm_text st.*2 = Ok keys →
  ∃ existing, build_existing st acc = Ok existing ∧
    ∀ k, is_Some (existing !! k) ↔ is_Some (acc !! k) ∨ k ∈ keys.
Proof.
  revert acc keys. induction st as [|[i d] st IH]; intros acc keys Hk.
  - injection Hk as <-. exists acc. split; [done|].
    intros k. rewrite elem_of_nil. tauto.
  - apply mapM_result_cons_inv in Hk as (key & keys' & Hd & Hst & ->).
    simpl in *. rewrite Hd. simpl.
    destruct (IH (<[key:=i]> acc) keys' Hst) as (ex & Hex & Hdom).
    exists ex. split; [done|]. intros k.
    rewrite Hdom, lookup_insert_is_Some', elem_of_cons.
    intuition congruence.
Qed.

Lemma str_field_missing_or (p : pdict) (k : string) :
  str_or_missing p k = true →
  as_str (dict_get_default p k (PStr "")) = Ok (field_str p k).
Proof.
  unfold str_or_missing, dict_get_default, field_str.
  by destruct (p !! k) as [[| |]|].
Qed.

Lemma import_candidate_ok existing p :
  candidate_ok p = true →
  import_candidate existing p =
    Ok (if decide (strip (field_str p "text") ≠ "" ∧ existing !! text_key p = None)
        then Some (imported_doc p) else None).
Proof.
  unfold candidate_ok. rewrite !andb_true_iff. intros [[[Ht Hm] Htr] Hc].
  unfold import_candidate.
  rewrite (get_or_field _ _ Ht). simpl.
  destruct (truthy (strip (field_str p "text"))) eqn:Htruthy; simpl.
  - assert (strip (field_str p "text") ≠ "") as Hne.
    { intros H. rewrite H in Htruthy. done. }
    fold (text_key p). case_bool_decide as Hex.
    + rewrite decide_False; [done|]. intros [_ Hnone].
      rewrite Hnone in Hex. by destruct Hex.
    + rewrite decide_True.
      2:{ split; [done|]. by apply eq_None_not_Some. }
      rewrite (str_field_missing_or _ _ Hm), (str_field_missing_or _ _ Htr),
        (str_field_missing_or _ _ Hc). done.
  - apply truthy_false in Htruthy.
    rewrite decide_False; [done|]. by intros [? _].
Qed.

Lemma import_loop_ok existing keys ps docs count :
  (∀ k, is_Some (existing !! k) ↔ k ∈ keys) →
  forallb candidate_ok ps = true →
  import_loop existing ps docs count =
    {| added := docs ++ (imported_doc <$> filter (admissible keys) ps);
       added_count := count + length (filter (admissible keys) ps);
       failure := None |}.
Proof.
  intros Hkeys. revert docs count.
  induction ps as [|p ps IH]; intros docs count Hps; simpl.
  - by rewrite app_nil_r, Nat.add_0_r.
  - apply andb_true_iff in Hps as [Hp Hps].
    rewrite (import_candidate_ok _ _ Hp), filter_cons.
    assert (strip (field_str p "text") ≠ "" ∧ existing !! text_key p = None
            ↔ admissible keys p) as Hiff.
    { unfold admissible. rewrite <-Hkeys, eq_None_not_Some. tauto. }
    destruct (decide (admissible keys p)) as [Ha|Ha].
    + rewrite decide_True by by apply Hiff.
      rewrite (IH _ _ Hps). simpl. f_equal.
      * by rewrite <-app_assoc.
      * lia.
    + rewrite decide_False by by rewrite Hiff.
      by apply IH.
Qed.

Lemma text_key_admissible keys p q :
  text_key q = text_key p → admissible keys p → admissible keys q.
Proof.
  unfold admissible, text_key. intros Hk [Hne Hnot]. split.
  - intros Hq. rewrite Hq in Hk. simpl in Hk.
    destruct (strip (field_str p "text")); [done|discriminate].
  - by rewrite Hk.
Qed.

(** C2, as the code has it: on a batch in the input format (every
    candidate's text is a string, null or missing, its meaning, translation
    and category are strings or missing) and a collection whose text fields
    are strings, null or missing, the importer finishes without an
    exception, writes the records of exactly the candidates with non-empty
    trimmed text whose trimmed-lowercased text is not the trimmed-lowercased
    text of a record of the collection as it was before the loop, in batch
    order, and counts them; a candidate that repeats an earlier admitted
    candidate of the batch is written as well. *)
Theorem bulk_import_admits (st : store) (candidates : list pdict) :
  forallb (λ d : pdict, field_ok d "text") st.*2 = true →
  forallb candidate_ok candidates = true →
  failure (upload_json_to_firestore st candidates) = None ∧
  added (upload_json_to_firestore st candidates)
    = imported_doc <$> filter (admissible (text_key <$> st.*2)) candidates ∧
  added_count (upload_json_to_firestore st candidates)
    = length (filter (admissible (text_key <$> st.*2)) candidates) ∧
  (∀ i j p q, i < j → candidates !! i = Some p → candidates !! j = Some q →
     admissible (text_key <$> st.*2) p → text_key q = text_key p →
     imported_doc p ∈ added (upload_json_to_firestore st candidates) ∧
     imported_doc q ∈ added (upload_json_to_firestore st candidates)).
Proof.
  intros Hst Hps.
  assert (mapM norm_text st.*2 = Ok (text_key <$> st.*2)) as Hkeys.
  { apply mapM_result_ok. intros d Hd. apply norm_text_ok.
    rewrite forallb_forall in Hst. by apply Hst, list_elem_of_In. }
  destruct (build_existing_ok st ∅ _ Hkeys) as (ex & Hex & Hdom).
  assert (∀ k, is_Some (ex !! k) ↔ k ∈ text_key <$> st.*2) as Hdom'.
  { intros k. rewrite Hdom, lookup_empty, is_Some_alt. tauto. }
  unfold upload_json_to_firestore. rewrite Hex.
  rewrite (import_loop_ok ex _ candidates [] 0 Hdom' Hps). simpl.
  repeat split; try done.
  - apply list_elem_of_fmap. exists p. split; [done|].
    apply list_elem_of_filter. split; [done|]. by eapply list_elem_of_lookup_2.
  - apply list_elem_of_fmap. exists q. split; [done|].
    apply list_elem_of_filter. split; [by eapply text_key_admissible|].
    by eapply list_elem_of_lookup_2.
Qed.

Lemma bulk_import_admits_witness :
  added_count (upload_json_to_firestore [("a", cand_khomo)]
                 [cand_khomo_lower; {[ "text" := PStr " Tau " ]}; cand_empty;
                  {[ "text" := PStr "tau" ]}]) = 2.
Proof.
  destruct (bulk_import_admits [("a", cand_khomo)]
              [cand_khomo_lower; {[ "text" := PStr " Tau " ]}; cand_empty;
               {[ "text" := PStr "tau" ]}])
    as (_ & _ & Hcount & _); [reflexivity|reflexivity|].
  rewrite Hcount. vm_compute. reflexivity.
Defined.

(** A batch outside the input format: the first candidate has text and a
    null meaning. Both candidates have non-empty trimmed text that the empty
    collection does not hold, yet the run ends with [AttributeError] at the
    first one and nothing is written. *)
Lemma bulk_import_null_meaning_counterexample :
  admissible [] cand_tau_null_meaning ∧ admissible [] cand_ntja ∧
  added (upload_json_to_firestore [] [cand_tau_null_meaning; cand_ntja]) = [] ∧
  failure (upload_json_to_firestore [] [cand_tau_null_meaning; cand_ntja])
    = Some AttributeError.
Proof.
  split; [|split; [|split]].
  - split; [vm_compute; discriminate|apply not_elem_of_nil].
  - split; [vm_compute; discriminate|apply not_elem_of_nil].
  - reflexivity.
  - reflexivity.
Qed.

(** C3: on the scenario batch and an empty collection the importer writes
    two records and reports 2: the lowercase repetition of the first
    candidate is not compared with it. *)
Theorem import_scenario_admits_two :
  added (upload_json_to_firestore [] batch_khomo)
    = [imported_doc cand_khomo; imported_doc cand_khomo_lower] ∧
  added_count (upload_json_to_firestore [] batch_khomo) = 2 ∧
  failure (upload_json_to_firestore [] batch_khomo) = None.
Proof. repeat split; vm_compute; reflexivity. Qed.

(** C10, as the code has it: a candidate whose text is missing or null is
    skipped; a candidate in the input format never raises; a candidate that
    passes the text and duplicate checks and has a null meaning, translation
    or category raises [AttributeError]. *)
Theorem import_candidate_null_fields (existing : gmap string string) (p : pdict) :
  (p !! "text" = None ∨ p !! "text" = Some PNone →
   import_candidate existing p = Ok None) ∧
  (candidate_ok p = true → ∃ r, import_candidate existing p = Ok r) ∧
  (∀ t, p !! "text" = Some (PStr t) → strip t ≠ "" →
     existing !! lower (strip t) = None →
     p !! "meaning" = Some PNone ∨ p !! "translation" = Some PNone
       ∨ p !! "category" = Some PNone →
     import_candidate existing p = Raise AttributeError).
Proof.
  split; [|split].
  - unfold import_candidate, dict_get, py_or. by intros [-> | ->].
  - intros Hok. rewrite (import_candidate_ok _ _ Hok). by eexists.
  - intros t Ht Hne Hex Hnull.
    unfold import_candidate, dict_get, dict_get_default, py_or. rewrite Ht. simpl.
    destruct t as [|c t]; simpl.
    + by destruct Hne.
    + destruct (truthy (strip (String c t))) eqn:Htr.
      2:{ by apply truthy_false in Htr. }
      simpl. rewrite Hex. rewrite bool_decide_eq_false_2 by by apply is_Some_None.
      destruct (p !! "meaning") as [[| |]|], (p !! "translation") as [[| |]|],
        (p !! "category") as [[| |]|]; simpl; try done;
        destruct Hnull as [|[|]]; done.
Qed.

Lemma import_candidate_null_fields_witness :
  import_candidate ∅ {[ "meaning" := PStr "m" ]} = Ok None ∧
  (∃ r, import_candidate ∅ cand_khomo = Ok r) ∧
  import_candidate ∅ {[ "text" := PStr " Tau "; "category" := PNone ]}
    = Raise AttributeError.
Proof.
  split; [|split].
  - apply (proj1 (import_candidate_null_fields ∅ {[ "meaning" := PStr "m" ]})).
    left. reflexivity.
  - apply (proj1 (proj2 (import_candidate_null_fields ∅ cand_khomo))). reflexivity.
  - apply (proj2 (proj2 (import_candidate_null_fields ∅
                           {[ "text" := PStr " Tau "; "category" := PNone ]})) " Tau ").
    + reflexivity.
    + vm_compute. discriminate.
    + reflexivity.
    + right. right. reflexivity.
Defined.

(** A candidate with a null meaning whose text is null as well is skipped
    before its meaning is read: no exception. *)
Lemma null_meaning_skipped_counterexample :
  cand_nulls !! "meaning" = Some PNone ∧
  import_candidate ∅ cand_nulls = Ok None ∧
  ¬ raises (import_candidate ∅ cand_nulls).
Proof. split; [reflexivity|]. split; [reflexivity|]. vm_compute. tauto. Qed.

(** * What the write paths persist *)

Section persisted.
Implicit Types (ps : list pdict) (p doc : pdict) (t m tr c : string).

Lemma mk_doc_text t m tr c kw : mk_doc t m tr c kw !! "text" = Some (PStr t).
Proof. reflexivity. Qed.

Lemma mk_doc_meaning t m tr c kw : mk_doc t m tr c kw !! "meaning" = Some (PStr m).
Proof. reflexivity. Qed.

Lemma mk_doc_category t m tr c kw : mk_doc t m tr c kw !! "category" = Some (PStr c).
Proof. reflexivity. Qed.

Lemma mk_doc_keywords t m tr c kw : mk_doc t m tr c kw !! "keywords" = Some (PList kw).
Proof. reflexivity. Qed.

Lemma mk_doc_id t m tr c kw : mk_doc t m tr c kw !! "id" = None.
Proof. reflexivity. Qed.

(** What a successful "Add Proverb" has checked and built. *)
Lemma add_proverb_click_added ps t m tr c doc :
  add_proverb_click ps t m tr c = Ok (StoreAdd doc) →
  doc = mk_doc (strip t) (strip m) (strip tr) (or_uncategorized (strip c))
          (lower <$> split t) ∧
  strip t ≠ "" ∧ strip m ≠ "" ∧
  ∃ keys, mapM norm_text ps = Ok keys ∧ lower (strip t) ∉ keys.
Proof.
  unfold add_proverb_click.
  destruct (mapM norm_text ps) as [keys|e]; simpl; [|done].
  destruct (truthy (strip t)) eqn:Ht, (truthy (strip m)) eqn:Hm; simpl; try done.
  case_bool_decide as Hdup; simpl; [done|].
  intros [= <-]. repeat split.
  - intros H. by rewrite H in Ht.
  - intros H. by rewrite H in Hm.
  - by exists keys.
Qed.

(** What a successful "Save Changes" has checked and built. *)
Lemma save_changes_click_set ps selected t m tr c sid doc :
  save_changes_click ps selected t m tr c = Ok (StoreSet sid doc) →
  doc = mk_doc (strip t) (strip m) (strip tr) (or_uncategorized (strip c))
          (lower <$> split t) ∧
  selected !! "id" = Some sid ∧
  ∃ others, other_texts ps selected = Ok others ∧ lower (strip t) ∉ others.
Proof.
  unfold save_changes_click.
  destruct (other_texts ps selected) as [others|e]; simpl; [|done].
  case_bool_decide as Hdup; simpl; [done|].
  unfold dict_item. destruct (selected !! "id") as [v|]; simpl; [|done].
  intros [= <- <-]. repeat split. by exists others.
Qed.

(** What an iteration of the import loop that writes has read. *)
Lemma import_candidate_some existing p doc :
  import_candidate existing p = Ok (Some doc) →
  doc = imported_doc p ∧ candidate_ok p = true ∧
  strip (field_str p "text") ≠ "" ∧ existing !! text_key p = None.
Proof.
  intros H.
  assert (candidate_ok p = true) as Hok.
  { revert H.
    unfold import_candidate, candidate_ok, field_ok, str_or_missing,
      dict_get, dict_get_default, py_or.
    destruct (p !! "text") as [[|[|a t]|[|w l]]|]; simpl; try done.
    destruct (truthy (strip (String a t))); simpl; try done.
    case_bool_decide; simpl; try done.
    destruct (p !! "meaning") as [[| |]|], (p !! "translation") as [[| |]|],
           (p !! "category") as [[| |]|]; simpl; done. }
  rewrite (import_candidate_ok _ _ Hok) in H.
  case_decide as Hd; [|done]. destruct Hd. by injection H as <-.
Qed.

Lemma import_loop_added existing ps docs count doc :
  doc ∈ added (import_loop existing ps docs count) →
  doc ∈ docs ∨ ∃ p, p ∈ ps ∧ import_candidate existing p = Ok (Some doc).
Proof.
  revert docs count. induction ps as [|p ps IH]; intros docs count; simpl.
  - by left.
  - destruct (import_candidate existing p) as [[data|]|e] eqn:Hp; simpl.
    + intros [[Hd|Hd%list_elem_of_singleton]%elem_of_app|(q & Hq & Hdoc)]%IH.
      * by left.
      * subst. right. exists p. split; [left|done].
      * right. exists q. split; [by right|done].
    + intros [Hd|(q & Hq & Hdoc)]%IH; [by left|].
      right. exists q. split; [by right|done].
    + by left.
Qed.

(** Every record the importer hands to the store is the record of some
    candidate of the batch. *)
Lemma upload_added st candidates doc :
  doc ∈ added (upload_json_to_firestore st candidates) →
  ∃ p, p ∈ candidates ∧ doc = imported_doc p ∧ candidate_ok p = true ∧
       strip (field_str p "text") ≠ "".
Proof.
  unfold upload_json_to_firestore.
  destruct (build_existing st ∅) as [ex|e]; simpl.
  - intros [Hd|(p & Hp & Hdoc)]%import_loop_added.
    + by apply elem_of_nil in Hd.
    + apply import_candidate_some in Hdoc as (-> & Hok & Hne & _). by exists p.
  - by intros ?%elem_of_nil.
Qed.


Lemma mk_doc_in_sync t m tr c raw :
  t = strip raw → keywords_in_sync (mk_doc t m tr c (lower <$> split raw)).
Proof.
  intros ->. exists (strip raw). split; [apply mk_doc_text|].
  by rewrite mk_doc_keywords, split_strip.
Qed.

End persisted.

(** C5: every record written by the add form, the edit form or the importer
    stores the trimmed text, and its keywords are the lowercased
    whitespace-separated tokens of that stored text. *)
Theorem keywords_follow_text :
  (∀ ps t m tr c doc,
     add_proverb_click ps t m tr c = Ok (StoreAdd doc) →
     doc !! "text" = Some (PStr (strip t)) ∧ keywords_in_sync doc) ∧
  (∀ ps selected t m tr c sid doc,
     save_changes_click ps selected t m tr c = Ok (StoreSet sid doc) →
     doc !! "text" = Some (PStr (strip t)) ∧ keywords_in_sync doc) ∧
  (∀ st candidates doc,
     doc ∈ added (upload_json_to_firestore st candidates) →
     ∃ p, p ∈ candidates ∧
       doc !! "text" = Some (PStr (strip (field_str p "text"))) ∧
       keywords_in_sync doc).
Proof.
  split; [|split].
  - intros ps t m tr c doc (-> & _)%add_proverb_click_added.
    split; [apply mk_doc_text|by apply mk_doc_in_sync].
  - intros ps selected t m tr c sid doc (-> & _)%save_changes_click_set.
    split; [apply mk_doc_text|by apply mk_doc_in_sync].
  - intros st candidates doc (p & Hp & -> & _)%upload_added.
    exists p. split; [done|]. split; [apply mk_doc_text|].
    eexists. split; [apply mk_doc_text|]. apply mk_doc_keywords.
Qed.

Lemma keywords_follow_text_witness :
  keywords_in_sync (mk_doc "Khomo  ke thota" "m" "" "Uncategorized" ["khomo"; "ke"; "thota"]) ∧
  (∃ p, p ∈ batch_khomo ∧
     imported_doc cand_khomo_lower !! "text" = Some (PStr (strip (field_str p "text"))) ∧
     keywords_in_sync (imported_doc cand_khomo_lower)).
Proof.
  split.
  - apply (proj1 keywords_follow_text [] "  Khomo  ke thota " "m " "" "").
    reflexivity.
  - apply (proj2 (proj2 keywords_follow_text) [] batch_khomo).
    vm_compute. right. left.
Defined.



(** * Required fields *)

(** The add form refuses a blank text and a blank meaning. *)
Lemma add_proverb_click_requires ps t m tr c keys :
  mapM norm_text ps = Ok keys →
  blank t = true ∨ blank m = true →
  add_proverb_click ps t m tr c = Ok (StError "Proverb text and meaning are required.").
Proof.
  intros Hk Hb. unfold add_proverb_click. rewrite Hk. simpl.
  destruct Hb as [Hb|Hb]; apply strip_empty_iff in Hb; rewrite Hb; simpl; [done|].
  by rewrite orb_true_r.
Qed.

(** C4: the edit form has no such check. Saving the single record of
    [store_one] with a blank text and an empty meaning passes, and the
    collection then holds a record with empty text and empty meaning. *)
Theorem save_changes_accepts_blank :
  select (load_proverbs store_one) (PStr "Khomo ke thota") = Some loaded_one ∧
  save_changes_click (load_proverbs store_one) loaded_one "   " "" "" ""
    = Ok (StoreSet (PStr "a") (mk_doc "" "" "" "Uncategorized" [])) ∧
  step store_one (AdminEdit (PStr "Khomo ke thota") "   " "" "" "")
    [("a", mk_doc "" "" "" "Uncategorized" [])].
Proof.
  split; [vm_compute; reflexivity|]. split; [vm_compute; reflexivity|].
  apply (step_admin_edit store_one (PStr "Khomo ke thota") loaded_one "   " "" "" "").
  - vm_compute. reflexivity.
  - replace (save_changes_click (load_proverbs store_one) loaded_one "   " "" "" "")
      with (Ok (StoreSet (PStr "a") (mk_doc "" "" "" "Uncategorized" [])))
      by (vm_compute; reflexivity).
    apply (commits_set store_one (PStr "a") (mk_doc "" "" "" "Uncategorized" [])).
Qed.

(** * The uniqueness invariant *)

Section admin_invariant.
Implicit Types (st : store) (d doc : pdict) (i : string).

Lemma loaded_lookup d i k :
  k ≠ "id" → (d ∪ {[ "id" := PStr i ]}) !! k = d !! k.
Proof. intros Hk. apply lookup_union_l. by apply lookup_singleton_ne. Qed.

Lemma loaded_id d i :
  d !! "id" = None → (d ∪ {[ "id" := PStr i ]}) !! "id" = Some (PStr i).
Proof. intros Hd. rewrite lookup_union_r by done. apply lookup_singleton_eq. Qed.

Lemma norm_text_loaded d i : norm_text (d ∪ {[ "id" := PStr i ]}) = norm_text d.
Proof. unfold norm_text, dict_get. by rewrite loaded_lookup. Qed.

Lemma mapM_norm_text_loaded st :
  mapM norm_text (load_proverbs st) = mapM norm_text st.*2.
Proof.
  induction st as [|[i d] st IH]; [done|]. simpl.
  by rewrite norm_text_loaded, IH.
Qed.

Lemma mapM_result_app {A B} (f : A → result B) (l1 l2 : list A) ks :
  mapM f (l1 ++ l2) = Ok ks ↔
  ∃ k1 k2, mapM f l1 = Ok k1 ∧ mapM f l2 = Ok k2 ∧ ks = k1 ++ k2.
Proof.
  revert ks. induction l1 as [|x l1 IH]; intros ks; simpl.
  - split.
    + intros H. by exists [], ks.
    + by intros (k1 & k2 & [= <-] & H2 & ->).
  - destruct (f x) as [y|e]; simpl.
    + destruct (mapM f (l1 ++ l2)) as [ks'|e] eqn:Hm; simpl.
      * destruct (proj1 (IH ks') eq_refl) as (k1 & k2 & H1 & H2 & ->).
        rewrite H1. simpl. split.
        -- intros [= <-]. by exists (y :: k1), k2.
        -- intros (k1' & k2' & [= <-] & H2' & ->). rewrite H2 in H2'.
           by injection H2' as <-.
      * split; [done|]. intros (k1 & k2 & H1 & H2 & ->).
        destruct (mapM f l1) as [k1'|e1]; simpl in *; [|done].
        assert (@Raise (list B) e = Ok (k1' ++ k2)); [|done].
        apply IH. by exists k1', k2.
    + split; [done|]. by intros (k1 & k2 & ? & _).
Qed.

Lemma norm_text_mk_doc t m tr c kw :
  norm_text (mk_doc (strip t) m tr c kw) = Ok (lower (strip t)).
Proof.
  unfold norm_text, dict_get, py_or. rewrite mk_doc_text. simpl.
  destruct (truthy (strip t)) eqn:Ht; simpl.
  - by rewrite strip_idemp.
  - apply truthy_false in Ht. by rewrite Ht.
Qed.

Lemma add_proverb_click_not_set (ps : list pdict) t m tr c sid data :
  Ok (StoreSet sid data) ≠ add_proverb_click ps t m tr c.
Proof.
  unfold add_proverb_click.
  destruct (mapM norm_text ps); simpl; [|done].
  destruct (_ || _); simpl; [done|]. by case_bool_decide.
Qed.

Lemma save_changes_click_not_add (ps : list pdict) (selected : pdict) t m tr c doc :
  Ok (StoreAdd doc) ≠ save_changes_click ps selected t m tr c.
Proof.
  unfold save_changes_click.
  destruct (other_texts ps selected); simpl; [|done].
  case_bool_decide; simpl; [done|]. by destruct (dict_item selected "id").
Qed.

(** The add form keeps the texts unique. *)
Lemma admin_add_keeps_unique st t m tr c st' :
  unique_texts st → step st (AdminAdd t m tr c) st' → unique_texts st'.
Proof.
  intros (keys & Hkeys & Hnd) Hstep. inversion Hstep as [? ? ? ? ? ? Hc| |]; subst.
  remember (add_proverb_click (load_proverbs st) t m tr c) as r eqn:He.
  destruct Hc as [st e|st msg|st doc i Hi|st sid data];
    try by exists keys.
  - symmetry in He.
    apply add_proverb_click_added in He as (-> & _ & _ & keys' & Hk' & Hnot).
    rewrite mapM_norm_text_loaded, Hkeys in Hk'. injection Hk' as <-.
    exists (keys ++ [lower (strip t)]). split.
    + unfold store_add. rewrite fmap_app. apply mapM_result_app.
      exists keys, [lower (strip t)]. split; [done|]. split; [|done].
      simpl. by rewrite norm_text_mk_doc.
    + apply NoDup_app. split; [done|]. split; [|apply NoDup_singleton].
      intros k Hk ->%list_elem_of_singleton. done.
  - by apply add_proverb_click_not_set in He.
Qed.

Lemma store_set_split st1 st2 i d data :
  i ∉ st1.*1 →
  store_set i data (st1 ++ (i, d) :: st2) = st1 ++ (i, data) :: st2.
Proof.
  induction st1 as [|[j dj] st1 IH]; simpl; intros Hi.
  - by rewrite decide_True.
  - apply not_elem_of_cons in Hi as [Hne Hi].
    rewrite decide_False by done. by rewrite IH.
Qed.

Lemma store_set_fst st i data :
  i ∈ st.*1 → (store_set i data st).*1 = st.*1.
Proof.
  induction st as [|[j dj] st IH]; simpl.
  - by intros ?%elem_of_nil.
  - intros Hi. case_decide; [done|]. simpl. f_equal. apply IH.
    apply elem_of_cons in Hi as [|]; [congruence|done].
Qed.

(** The comparison set of the edit form, on a loaded collection: the
    normalised texts of the documents with another id. *)
Lemma other_texts_loaded (st : list (string * pdict)) selected i :
  Forall (λ d : pdict, d !! "id" = None) st.*2 →
  selected !! "id" = Some (PStr i) →
  other_texts (load_proverbs st) selected =
    mapM norm_text (filter (λ e : string * pdict, e.1 ≠ i) st).*2.
Proof.
  intros Hno Hsel. induction st as [|[j d] st IH]; [done|].
  apply Forall_cons in Hno as [Hd Hno]. simpl in Hd.
  rewrite filter_cons.
  change (load_proverbs ((j, d) :: st))
    with ((d ∪ {[ "id" := PStr j ]}) :: load_proverbs st).
  change (other_texts ((d ∪ {[ "id" := PStr j ]}) :: load_proverbs st) selected)
    with (pid ← dict_item (d ∪ {[ "id" := PStr j ]}) "id";
          sid ← dict_item selected "id";
          if bool_decide (pid ≠ sid)
          then t ← norm_text (d ∪ {[ "id" := PStr j ]});
               ts ← other_texts (load_proverbs st) selected; mret (t :: ts)
          else other_texts (load_proverbs st) selected).
  unfold dict_item. rewrite (loaded_id _ _ Hd), Hsel. simpl.
  rewrite (IH Hno).
  destruct (decide (j = i)) as [->|Hne].
  - rewrite bool_decide_eq_false_2 by (intros H; by apply H).
    by rewrite decide_False by (intros H; by apply H).
  - rewrite bool_decide_eq_true_2 by congruence.
    rewrite decide_True by done. simpl. by rewrite norm_text_loaded.
Qed.

Lemma filter_other_ids (st : list (string * pdict)) i :
  i ∉ st.*1 → filter (λ e : string * pdict, e.1 ≠ i) st = st.
Proof.
  induction st as [|[j d] st IH]; [done|]. simpl.
  intros [Hne Hi]%not_elem_of_cons. rewrite filter_cons.
  rewrite decide_True by (simpl; congruence). by rewrite IH.
Qed.

(** The edit form keeps the texts unique. *)
Lemma admin_edit_keeps_unique st sel t m tr c st' :
  store_ok st → unique_texts st →
  step st (AdminEdit sel t m tr c) st' →
  store_ok st' ∧ unique_texts st'.
Proof.
  intros [Hids Hno] (keys & Hkeys & Hnd) Hstep.
  inversion Hstep as [|? ? selected ? ? ? ? ? Hsel Hc|]; subst.
  remember (save_changes_click (load_proverbs st) selected t m tr c) as r eqn:He.
  destruct Hc as [st e|st msg|st doc i Hi|st sid data];
    try (split; [done|by exists keys]).
  - by apply save_changes_click_not_add in He.
  - symmetry in He.
    apply save_changes_click_set in He as (-> & Hsid & others & Hothers & Hnot).
    apply find_some in Hsel as [Hin _]. apply list_elem_of_In in Hin.
    apply list_elem_of_fmap in Hin as ([i d] & -> & Hin). simpl in *.
    assert (d !! "id" = None) as Hd.
    { rewrite Forall_forall in Hno. apply Hno.
      by apply (list_elem_of_fmap_2 snd) in Hin. }
    rewrite (loaded_id _ _ Hd) in Hsid. injection Hsid as <-.
    rewrite (other_texts_loaded st _ i Hno (loaded_id _ _ Hd)) in Hothers.
    apply list_elem_of_split in Hin as (st1 & st2 & ->).
    rewrite fmap_app, fmap_cons in Hids. simpl in Hids.
    apply NoDup_app in Hids as (Hids1 & Hdisj & [Hi2 Hids2]%NoDup_cons).
    assert (i ∉ st1.*1) as Hi1.
    { intros Hi. apply (Hdisj i Hi). left. }
    rewrite filter_app, filter_cons in Hothers. simpl in Hothers.
    rewrite decide_False in Hothers by (intros H; by apply H).
    rewrite (filter_other_ids _ _ Hi1), (filter_other_ids _ _ Hi2) in Hothers.
    rewrite fmap_app in Hothers.
    apply mapM_result_app in Hothers as (k1 & k2 & Hk1 & Hk2 & ->).
    rewrite fmap_app, fmap_cons in Hkeys.
    apply mapM_result_app in Hkeys as (k1' & k2' & Hk1' & Hk2' & ->).
    rewrite Hk1 in Hk1'. injection Hk1' as <-.
    apply mapM_result_cons_inv in Hk2' as (kd & k2'' & _ & Hk2' & ->).
    rewrite Hk2 in Hk2'. injection Hk2' as <-.
    simpl. rewrite (store_set_split _ _ _ _ _ Hi1). split; [split|].
    + rewrite fmap_app, fmap_cons. simpl. apply NoDup_app.
      split; [done|]. split; [done|]. by apply NoDup_cons.
    + rewrite fmap_app, fmap_cons in Hno |- *. simpl in *.
      apply Forall_app in Hno as [Hno1 [_ Hno2]%Forall_cons].
      apply Forall_app. split; [done|]. apply Forall_cons. split; [|done].
      apply mk_doc_id.
    + exists (k1 ++ lower (strip t) :: k2). split.
      * rewrite fmap_app, fmap_cons. apply mapM_result_app.
        exists k1, (lower (strip t) :: k2). split; [done|]. split; [|done].
        simpl. by rewrite norm_text_mk_doc, Hk2.
      * apply NoDup_app in Hnd as (Hn1 & Hd12 & [_ Hn2]%NoDup_cons).
        apply NoDup_app. split; [done|]. split.
        -- intros k Hk [->|Hk2']%elem_of_cons.
           ++ apply Hnot, elem_of_app. by left.
           ++ apply (Hd12 k Hk). by right.
        -- apply NoDup_cons. split; [|done].
           intros Hk. apply Hnot, elem_of_app. by right.
Qed.

Lemma admin_add_keeps_store_ok st t m tr c st' :
  store_ok st → step st (AdminAdd t m tr c) st' → store_ok st'.
Proof.
  intros [Hids Hno] Hstep. inversion Hstep as [? ? ? ? ? ? Hc| |]; subst.
  remember (add_proverb_click (load_proverbs st) t m tr c) as r eqn:He.
  destruct Hc as [st e|st msg|st doc i Hi|st sid data];
    try by split.
  - symmetry in He. apply add_proverb_click_added in He as (-> & _).
    unfold store_add. split.
    + rewrite fmap_app. simpl. apply NoDup_app. split; [done|].
      split; [|apply NoDup_singleton].
      intros j Hj ->%list_elem_of_singleton. done.
    + rewrite fmap_app. apply Forall_app. split; [done|].
      apply Forall_singleton, mk_doc_id.
  - by apply add_proverb_click_not_set in He.
Qed.

(** Every run of admin operations keeps the texts of the collection
    unique. *)
Lemma admin_runs_keep_unique st ops st' :
  forallb is_admin ops = true →
  steps st ops st' →
  store_ok st → unique_texts st → store_ok st' ∧ unique_texts st'.
Proof.
  intros Hops Hsteps. induction Hsteps as [st|st op st1 ops st2 Hstep _ IH];
    intros Hok Hu; [done|].
  apply andb_true_iff in Hops as [Hop Hops].
  destruct op as [t m tr c|sel t m tr c|cands]; [| |done].
  - apply (IH Hops).
    + by eapply admin_add_keeps_store_ok.
    + by eapply admin_add_keeps_unique.
  - destruct (admin_edit_keeps_unique _ _ _ _ _ _ _ Hok Hu Hstep). by apply IH.
Qed.

End admin_invariant.

(** C1: the importer compares every candidate with the collection as it was
    before the loop only. Importing the scenario batch into the empty
    collection, whose texts are trivially unique, leaves two records with the
    same trimmed-lowercased text. *)
Theorem bulk_import_breaks_uniqueness :
  ∃ st', step [] (BulkImport batch_khomo) st' ∧
         unique_texts [] ∧ ¬ unique_texts st'.
Proof.
  exists ([] ++ zip ["a"; "b"] (added (upload_json_to_firestore [] batch_khomo))).
  split; [|split].
  - apply (step_bulk_import [] batch_khomo ["a"; "b"]).
    + vm_compute. reflexivity.
    + apply (NoDup_cons_2 "a" ["b"]).
      * rewrite list_elem_of_singleton. discriminate.
      * apply NoDup_singleton.
    + intros i _. apply not_elem_of_nil.
  - exists []. split; [reflexivity|apply NoDup_nil_2].
  - intros (keys & Hk & Hnd). vm_compute in Hk. injection Hk as <-.
    apply NoDup_cons_1_1 in Hnd. apply Hnd. left.
Qed.

(** * Further properties of the keyword search *)

Section search_more.
Implicit Types (p : pdict) (k w s : string) (ps : list pdict).

Lemma get_or_readable p k :
  as_str (py_or (dict_get p k) (PStr "")) =
    if readable p k then Ok (field_str p k) else Raise AttributeError.
Proof.
  unfold readable, field_str, dict_get, py_or.
  destruct (p !! k) as [[|s|[|x l]]|]; simpl; try done.
  by destruct s.
Qed.

(** The loop on arbitrary records: a filter when every record is readable,
    [AttributeError] otherwise, whatever was collected before. *)
Lemma search_loop_total k b ps acc :
  search_loop k b ps acc =
    if forallb search_readable ps
    then Ok (acc ++ filter (matches_keyword k b) ps)
    else Raise AttributeError.
Proof.
  revert acc. induction ps as [|p ps IH]; intros acc; simpl.
  - by rewrite app_nil_r.
  - rewrite !get_or_readable. unfold search_readable at 1.
    destruct (readable p "text"); simpl; [|done].
    destruct (readable p "meaning"); simpl; [|done].
    rewrite filter_cons.
    destruct (decide (matches_keyword k b p)) as [Hp|Hp].
    + rewrite (proj2 (matches_keyword_bool k b p) Hp), IH.
      destruct (forallb search_readable ps); [|done]. by rewrite <-app_assoc.
    + destruct (contains _ _ || _) eqn:Hc.
      * by apply matches_keyword_bool in Hc.
      * apply IH.
Qed.

Lemma search_proverbs_total ps kw b :
  search_proverbs ps kw b =
    if blank kw then Ok []
    else if forallb search_readable ps
    then Ok (filter (matches_keyword (strip (lower kw)) b) ps)
    else Raise AttributeError.
Proof.
  unfold search_proverbs.
  destruct (blank kw) eqn:Hb.
  - rewrite <-blank_lower in Hb. apply strip_empty_iff in Hb. by rewrite Hb.
  - destruct (truthy (strip (lower kw))) eqn:Hk; simpl.
    + apply search_loop_total.
    + apply truthy_false, strip_empty_iff in Hk. rewrite blank_lower in Hk. congruence.
Qed.

Lemma forallb_false_iff {A} (f : A → bool) (l : list A) :
  forallb f l = false ↔ ∃ x, x ∈ l ∧ f x = false.
Proof.
  induction l as [|x l IH]; simpl.
  - split; [done|]. by intros (x & ?%elem_of_nil & _).
  - rewrite andb_false_iff, IH. split.
    + intros [Hx|(y & Hy & Hfy)]; [exists x|exists y]; split; try done; [left|by right].
    + intros (y & [->|Hy]%elem_of_cons & Hfy); [by left|]. right. by exists y.
Qed.

Lemma matches_keyword_mono k p : matches_keyword k false p → matches_keyword k true p.
Proof. unfold matches_keyword. intros [H|[? _]]; [by left|done]. Qed.

Lemma filter_sublist_mono {A} (P Q : A → Prop) `{∀ x, Decision (P x)}
    `{∀ x, Decision (Q x)} (l : list A) :
  (∀ x, P x → Q x) → filter P l `sublist_of` filter Q l.
Proof.
  intros HPQ. induction l as [|x l IH]; [done|].
  rewrite !filter_cons.
  destruct (decide (P x)) as [HP|HP].
  - rewrite decide_True by auto. by apply sublist_skip.
  - destruct (decide (Q x)); [by apply sublist_cons|done].
Qed.

End search_more.

(** X1: the search raises exactly when the keyword is not blank and some
    record has a non-empty list as text or meaning; the exception is
    [AttributeError], and nothing collected before it is returned. *)
Theorem search_proverbs_raises (proverbs : list pdict) (keyword : string) (search_in_meaning : bool) :
  (raises (search_proverbs proverbs keyword search_in_meaning) ↔
     blank keyword = false ∧ ∃ p, p ∈ proverbs ∧ search_readable p = false) ∧
  (∀ e, search_proverbs proverbs keyword search_in_meaning = Raise e → e = AttributeError).
Proof.
  rewrite search_proverbs_total.
  destruct (blank keyword); simpl.
  - split; [|done]. split; [done|]. by intros [? _].
  - destruct (forallb search_readable proverbs) eqn:Hall; simpl.
    + split; [|done]. split; [done|]. intros [_ Hex].
      apply forallb_false_iff in Hex. congruence.
    + split; [|by intros e [= <-]]. split; [|done]. intros _. split; [done|].
      by apply forallb_false_iff.
Qed.

(** X2: the search does not depend on the letter case of the keyword or on
    whitespace around it. *)
Theorem search_proverbs_keyword_normal (proverbs : list pdict) (keyword : string) (search_in_meaning : bool) :
  search_proverbs proverbs (lower keyword) search_in_meaning
    = search_proverbs proverbs keyword search_in_meaning ∧
  search_proverbs proverbs (strip keyword) search_in_meaning
    = search_proverbs proverbs keyword search_in_meaning.
Proof.
  unfold search_proverbs. split.
  - by rewrite lower_idemp.
  - by rewrite lower_strip, strip_idemp.
Qed.

(** X3: whatever the search returns is a subsequence of the records given,
    and searching the texts only returns a subsequence of what searching
    texts and meanings returns. *)
Theorem search_proverbs_sublists (proverbs : list pdict) (keyword : string) (found : list pdict) :
  search_proverbs proverbs keyword true = Ok found →
  found `sublist_of` proverbs ∧
  ∃ found_text, search_proverbs proverbs keyword false = Ok found_text ∧
                found_text `sublist_of` found.
Proof.
  rewrite !search_proverbs_total.
  destruct (blank keyword).
  - intros [= <-]. split; [apply sublist_nil_l|]. by exists [].
  - destruct (forallb search_readable proverbs); [|done].
    intros [= <-]. split; [apply sublist_filter|].
    eexists. split; [done|].
    apply filter_sublist_mono, matches_keyword_mono.
Qed.

Lemma search_proverbs_sublists_witness :
  [rec_khomo] `sublist_of` [∅; rec_khomo] ∧
  ∃ found_text, search_proverbs [∅; rec_khomo] "KHOMO" false = Ok found_text ∧
                found_text `sublist_of` [rec_khomo].
Proof.
  apply (search_proverbs_sublists [∅; rec_khomo] "KHOMO" [rec_khomo]).
  vm_compute. reflexivity.
Defined.

(** * Keywords *)

Section tokens.
Implicit Types (s w cur : string) (c : ascii).

Lemma no_space_snoc cur c :
  no_space cur = true → is_space c = false → no_space (cur +:+ String c "") = true.
Proof.
  intros Hcur Hc. induction cur as [|a cur IH]; simpl in *.
  - by rewrite Hc.
  - apply andb_true_iff in Hcur as [-> Hcur]. by apply IH.
Qed.

Lemma substring_of_refl_app s t : substring_of s (s +:+ t).
Proof. by exists "", t. Qed.

(** Every token is non-empty, free of whitespace, and occurs in the text. *)
Lemma split_go_tokens cur s w :
  no_space cur = true → w ∈ split_go cur s →
  w ≠ "" ∧ no_space w = true ∧ substring_of w (cur +:+ s).
Proof.
  revert cur. induction s as [|c s IH]; intros cur Hcur; simpl.
  - destruct (truthy cur) eqn:Ht; [|by intros ?%elem_of_nil].
    intros ->%list_elem_of_singleton. split; [by destruct cur|].
    split; [done|apply substring_of_refl_app].
  - destruct (is_space c) eqn:Hc.
    + assert (w ∈ split_go "" s → w ≠ "" ∧ no_space w = true
                ∧ substring_of w (cur +:+ String c s)) as Hrest.
      { intros (Hne & Hns & pre & post & Hs)%IH; [|done].
        split; [done|]. split; [done|].
        exists (cur +:+ String c pre), post.
        rewrite app_nil_l_s in Hs. rewrite Hs.
        by rewrite app_assoc_s, app_cons_s. }
      destruct (truthy cur) eqn:Ht; [|done].
      intros [->|Hw]%elem_of_cons; [|by apply Hrest].
      split; [by destruct cur|]. split; [done|apply substring_of_refl_app].
    + intros Hw. apply IH in Hw as (Hne & Hns & Hsub).
      * split; [done|]. split; [done|].
        by rewrite app_assoc_s, app_cons_s, app_nil_l_s in Hsub.
      * by apply no_space_snoc.
Qed.

Lemma split_tokens s w :
  w ∈ split s → w ≠ "" ∧ no_space w = true ∧ substring_of w s.
Proof. intros Hw. by apply (split_go_tokens "" s w) in Hw. Qed.

Lemma no_space_lower s : no_space (lower s) = no_space s.
Proof. induction s as [|c s IH]; [done|]. simpl. by rewrite is_space_lower_char, IH. Qed.

Lemma no_space_rstrip s : no_space s = true → rstrip s = s.
Proof.
  induction s as [|c s IH]; [done|]. simpl.
  intros [Hc Hs]%andb_true_iff. rewrite (IH Hs).
  destruct s; [|done]. by destruct (is_space c).
Qed.

Lemma no_space_strip s : no_space s = true → strip s = s.
Proof.
  intros Hs. unfold strip. rewrite lstrip_id.
  - by apply no_space_rstrip.
  - destruct s as [|c s]; [done|]. simpl in *. by apply andb_true_iff in Hs as [-> _].
Qed.

Lemma substring_of_lower w s : substring_of w s → substring_of (lower w) (lower s).
Proof.
  intros (pre & post & ->). exists (lower pre), (lower post).
  by rewrite !lower_app.
Qed.

Lemma keywords_in_sync_inv (doc : pdict) kws :
  keywords_in_sync doc → doc !! "keywords" = Some (PList kws) →
  ∃ text, doc !! "text" = Some (PStr text) ∧ kws = lower <$> split text.
Proof.
  intros (text & Ht & Hk) Hk'. exists text. split; [done|]. congruence.
Qed.

End tokens.

(** X4: every keyword stored with a record finds that record: searching
    readable records for a keyword of one of them, whose keywords are the
    lowercased tokens of its text, returns that record. *)
Theorem keywords_find_record (proverbs : list pdict) (doc : pdict) (kws : list string)
    (w : string) (search_in_meaning : bool) :
  forallb search_readable proverbs = true →
  doc ∈ proverbs →
  keywords_in_sync doc → doc !! "keywords" = Some (PList kws) →
  w ∈ kws →
  ∃ found, search_proverbs proverbs w search_in_meaning = Ok found ∧ doc ∈ found.
Proof.
  intros Hall Hdoc Hsync Hkws Hw.
  destruct (keywords_in_sync_inv _ _ Hsync Hkws) as (text & Htext & ->).
  apply list_elem_of_fmap in Hw as (w0 & -> & Hw0).
  apply split_tokens in Hw0 as (Hne & Hns & Hsub).
  assert (strip (lower (lower w0)) = lower w0) as Hk.
  { rewrite lower_idemp. apply no_space_strip. by rewrite no_space_lower. }
  assert (blank (lower w0) = false) as Hb.
  { destruct (blank (lower w0)) eqn:Hb; [|done].
    rewrite <-blank_lower in Hb. apply strip_empty_iff in Hb.
    rewrite Hk in Hb. by destruct w0. }
  rewrite search_proverbs_total, Hb, Hall, Hk.
  eexists. split; [done|]. apply list_elem_of_filter. split; [|done].
  left. unfold field_str. rewrite Htext. by apply substring_of_lower.
Qed.

Lemma keywords_find_record_witness :
  ∃ found,
    search_proverbs [rec_khomo; mk_doc "Tau ea  Thaba" "m" "" "Uncategorized" ["tau"; "ea"; "thaba"]]
      "thaba" false = Ok found ∧
    mk_doc "Tau ea  Thaba" "m" "" "Uncategorized" ["tau"; "ea"; "thaba"] ∈ found.
Proof.
  apply (keywords_find_record
           [rec_khomo; mk_doc "Tau ea  Thaba" "m" "" "Uncategorized" ["tau"; "ea"; "thaba"]]
           (mk_doc "Tau ea  Thaba" "m" "" "Uncategorized" ["tau"; "ea"; "thaba"])
           ["tau"; "ea"; "thaba"] "thaba" false).
  - reflexivity.
  - right. left.
  - exists "Tau ea  Thaba". split; reflexivity.
  - reflexivity.
  - right. right. left.
Defined.

(** X5: the keywords of a record whose keywords are in step with its text
    are non-empty, contain no whitespace and are in lower case. *)
Theorem keywords_well_formed (doc : pdict) (kws : list string) (w : string) :
  keywords_in_sync doc → doc !! "keywords" = Some (PList kws) → w ∈ kws →
  w ≠ "" ∧ no_space w = true ∧ lower w = w.
Proof.
  intros Hsync Hkws Hw.
  destruct (keywords_in_sync_inv _ _ Hsync Hkws) as (text & _ & ->).
  apply list_elem_of_fmap in Hw as (w0 & -> & Hw0).
  apply split_tokens in Hw0 as (Hne & Hns & _).
  split; [by destruct w0|]. split; [by rewrite no_space_lower|apply lower_idemp].
Qed.

Lemma keywords_well_formed_witness :
  "thaba" ≠ "" ∧ no_space "thaba" = true ∧ lower "thaba" = "thaba".
Proof.
  apply (keywords_well_formed
           (mk_doc "Tau ea  Thaba" "m" "" "Uncategorized" ["tau"; "ea"; "thaba"])
           ["tau"; "ea"; "thaba"] "thaba").
  - exists "Tau ea  Thaba". split; reflexivity.
  - reflexivity.
  - right. right. left.
Defined.

(** * Category page *)

Section categories_more.
Implicit Types (p : pdict) (c : string) (ps : list pdict).

Lemma category_of_total p :
  category_of p =
    if readable p "category" then Ok (listed_category p) else Raise AttributeError.
Proof.
  unfold readable, category_of, listed_category, dict_get, py_or.
  by destruct (p !! "category") as [[|[|a s]|[|x l]]|].
Qed.

Lemma mapM_category_of_total ps :
  mapM category_of ps =
    if forallb (λ p, readable p "category") ps
    then Ok (listed_category <$> ps) else Raise AttributeError.
Proof.
  induction ps as [|p ps IH]; [done|]. simpl.
  rewrite category_of_total. destruct (readable p "category"); simpl; [|done].
  rewrite IH. by destruct (forallb _ ps).
Qed.

Lemma filter_by_category_total ps c :
  filter_by_category ps c =
    if forallb (λ p, readable p "category") ps
    then Ok (filter (λ p, listed_category p = c) ps) else Raise AttributeError.
Proof.
  induction ps as [|p ps IH]; [done|]. simpl.
  rewrite category_of_total. destruct (readable p "category"); simpl; [|done].
  rewrite filter_cons, IH.
  destruct (decide (listed_category p = c)) as [Hc|Hc].
  - rewrite bool_decide_eq_true_2 by done. by destruct (forallb _ ps).
  - by rewrite bool_decide_eq_false_2 by done.
Qed.

Lemma categories_from_total ps :
  categories_from ps =
    if forallb (λ p, readable p "category") ps
    then Ok (sorted (elements (list_to_set (listed_category <$> ps) : gset string)))
    else Raise AttributeError.
Proof.
  unfold categories_from. rewrite mapM_category_of_total.
  by destruct (forallb _ ps).
Qed.

Lemma elem_of_sorted_categories ps c :
  c ∈ sorted (elements (list_to_set (listed_category <$> ps) : gset string))
  ↔ ∃ p, p ∈ ps ∧ listed_category p = c.
Proof.
  unfold sorted.
  rewrite merge_sort_Permutation, elem_of_elements, elem_of_list_to_set,
    list_elem_of_fmap.
  split; intros (p & H1 & H2); by exists p.
Qed.

Lemma listed_category_blank p s :
  p !! "category" = Some (PStr s) → s ≠ "" → blank s = true → listed_category p = "".
Proof.
  intros Hp Hs Hb. unfold listed_category. rewrite Hp.
  destruct s as [|a s]; [done|]. by apply strip_empty_iff.
Qed.

End categories_more.

(** X6: the category box and the category filter agree: the box offers
    exactly the categories whose filter is non-empty, every record is found
    under its own category, and under no other. *)
Theorem category_filter_partition (proverbs : list pdict) (cats : list string) :
  categories_from proverbs = Ok cats →
  (∀ c, c ∈ cats ↔
        ∃ filtered, filter_by_category proverbs c = Ok filtered ∧ filtered ≠ []) ∧
  (∀ c filtered, filter_by_category proverbs c = Ok filtered →
        filtered `sublist_of` proverbs ∧
        ∀ p, p ∈ filtered ↔ p ∈ proverbs ∧ listed_category p = c).
Proof.
  rewrite categories_from_total.
  destruct (forallb _ proverbs) eqn:Hall; [|done]. intros [= <-]. split.
  - intros c. rewrite elem_of_sorted_categories, filter_by_category_total, Hall.
    split.
    + intros (p & Hp & Hc). eexists. split; [done|].
      intros Hnil. assert (p ∈ filter (λ p, listed_category p = c) proverbs) as Hin.
      { by apply list_elem_of_filter. }
      rewrite Hnil in Hin. by apply elem_of_nil in Hin.
    + intros (filtered & [= <-] & Hne).
      destruct (filter _ proverbs) as [|p l] eqn:Hf; [done|].
      assert (p ∈ filter (λ p, listed_category p = c) proverbs) as Hin.
      { rewrite Hf. left. }
      apply list_elem_of_filter in Hin as [Hc Hp]. by exists p.
  - intros c filtered. rewrite filter_by_category_total, Hall. intros [= <-].
    split; [apply sublist_filter|].
    intros p. rewrite list_elem_of_filter. tauto.
Qed.

Lemma category_filter_partition_witness :
  "Animals" ∈ ["Animals"; "Uncategorized"] ↔
  ∃ filtered,
    filter_by_category [ {[ "category" := PStr " Animals" ]}; ∅;
                         {[ "category" := PStr "Animals " ]} ] "Animals" = Ok filtered ∧
    filtered ≠ [].
Proof.
  assert (categories_from [ {[ "category" := PStr " Animals" ]}; ∅;
                            {[ "category" := PStr "Animals " ]} ]
          = Ok ["Animals"; "Uncategorized"]) as Hcats.
  { vm_compute. reflexivity. }
  apply (proj1 (category_filter_partition _ _ Hcats)).
Defined.

(** X7: a record whose category consists of whitespace only is offered in
    the category box under the empty entry, but choosing that entry shows
    nothing, and no other choice shows the record. *)
Theorem category_page_hides_blank (proverbs : list pdict) (cats : list string)
    (p : pdict) (s : string) :
  categories_from proverbs = Ok cats →
  p ∈ proverbs → p !! "category" = Some (PStr s) → s ≠ "" → blank s = true →
  "" ∈ cats ∧
  category_page proverbs "" = Ok NothingShown ∧
  ∀ c count filtered,
    category_page proverbs c = Ok (Shown count filtered) → p ∉ filtered.
Proof.
  intros Hcats Hp Hcat Hs Hb.
  pose proof (listed_category_blank _ _ Hcat Hs Hb) as Hlisted.
  assert ("" ∈ cats) as Hin.
  { rewrite categories_from_total in Hcats.
    destruct (forallb _ proverbs); [|done]. injection Hcats as <-.
    apply elem_of_sorted_categories. by exists p. }
  split; [done|]. unfold category_page. rewrite Hcats. simpl.
  destruct cats as [|c0 cats]; [by apply elem_of_nil in Hin|]. split; [done|].
  intros c count filtered.
  destruct (truthy c) eqn:Hc; simpl; [|done].
  rewrite filter_by_category_total.
  destruct (forallb _ proverbs); simpl; [|done].
  intros [= _ <-] [Hpc _]%list_elem_of_filter.
  rewrite Hlisted in Hpc. by subst.
Qed.

Lemma category_page_hides_blank_witness :
  "" ∈ [""; "Animals"] ∧
  category_page [rec_blank_category; {[ "category" := PStr "Animals" ]}] "" = Ok NothingShown ∧
  ∀ c count filtered,
    category_page [rec_blank_category; {[ "category" := PStr "Animals" ]}] c
      = Ok (Shown count filtered) → rec_blank_category ∉ filtered.
Proof.
  apply (category_page_hides_blank
           [rec_blank_category; {[ "category" := PStr "Animals" ]}]
           [""; "Animals"] rec_blank_category " ").
  - vm_compute. reflexivity.
  - left.
  - reflexivity.
  - discriminate.
  - reflexivity.
Defined.

(** * Admin password and the edit box *)

(** X8: the warning "Admin password not configured" is shown exactly when
    the configured password is missing, null or empty, whatever is typed,
    and then the admin page never opens. The page opens exactly when the
    typed password is not empty and equals the configured password; a wrong
    non-empty password gives the "Invalid password" error, an empty one
    gives neither the page nor that error. *)
Theorem admin_gate_spec (admin_pw : pyval) (password : string) :
  (not_configured (admin_gate admin_pw password) = true ↔
     admin_pw = PNone ∨ admin_pw = PStr "" ∨ admin_pw = PList []) ∧
  (not_configured (admin_gate admin_pw password) = true →
     access (admin_gate admin_pw password) ≠ Granted) ∧
  (access (admin_gate admin_pw password) = Granted ↔
     password ≠ "" ∧ admin_pw = PStr password) ∧
  (access (admin_gate admin_pw password) = Invalid ↔
     password ≠ "" ∧ admin_pw ≠ PStr password) ∧
  (access (admin_gate admin_pw password) = Idle ↔ password = "").
Proof.
  unfold admin_gate. simpl. split; [|split].
  - destruct admin_pw as [|[|a s]|[|x l]]; simpl; split; try done;
      try (by intros [|[|]]); auto.
  - destruct (val_truthy admin_pw); simpl; [done|].
    intros _. by destruct (truthy password).
  - destruct (decide (PStr password = admin_pw)) as [<-|Hne].
    + rewrite bool_decide_eq_true_2 by done. simpl.
      destruct password as [|a pw]; simpl; repeat split; try done;
        try (by intros [? ?]); by destruct 1.
    + rewrite bool_decide_eq_false_2 by done. rewrite andb_false_r.
      destruct password as [|a pw]; simpl; repeat split; try done;
        try (by intros [? ?]); try (by intros [_ ->]).
Qed.

Lemma admin_gate_spec_witness :
  access (admin_gate (PStr "") "") ≠ Granted.
Proof.
  apply (proj1 (proj2 (admin_gate_spec (PStr "") ""))). reflexivity.
Defined.

(** X9: for every entry of the edit box a record is selected, and the
    selected record is the first one with that text: a later record with
    the same text can never be selected. *)
Theorem select_first_match (proverbs : list pdict) (sel : pyval) :
  (sel ∈ choice_texts proverbs → is_Some (select proverbs sel)) ∧
  (∀ p, select proverbs sel = Some p →
     ∃ before after, proverbs = before ++ p :: after ∧
       py_or (dict_get p "text") (PStr "") = sel ∧
       sel ∉ choice_texts before).
Proof.
  unfold select, choice_texts. induction proverbs as [|q ps [IH1 IH2]]; simpl.
  - split; [by intros ?%elem_of_nil|done].
  - case_bool_decide as Hq; split.
    + by eexists.
    + intros p [= <-]. exists [], ps. split; [done|]. split; [done|].
      apply not_elem_of_nil.
    + intros [Hsel|Hsel]%elem_of_cons; [by subst|by apply IH1].
    + intros p (before & after & -> & Hp & Hbefore)%IH2.
      exists (q :: before), after. split; [done|]. split; [done|].
      rewrite fmap_cons. apply not_elem_of_cons. split; [congruence|done].
Qed.

Lemma select_first_match_witness :
  is_Some (select (load_proverbs store_case_twins) (PStr "khomo ke thota")).
Proof.
  apply (proj1 (select_first_match (load_proverbs store_case_twins) (PStr "khomo ke thota"))).
  right. left.
Defined.

(** * The add form *)

Section add_form.
Implicit Types (p doc : pdict) (ps : list pdict) (t m tr c : string).

Lemma norm_text_total p :
  norm_text p = if readable p "text" then Ok (text_key p) else Raise AttributeError.
Proof.
  unfold norm_text. rewrite get_or_readable. by destruct (readable p "text").
Qed.

Lemma mapM_norm_text_total ps :
  mapM norm_text ps =
    if forallb (λ p, readable p "text") ps
    then Ok (text_key <$> ps) else Raise AttributeError.
Proof.
  induction ps as [|p ps IH]; [done|]. simpl.
  rewrite norm_text_total. destruct (readable p "text"); simpl; [|done].
  rewrite IH. by destruct (forallb _ ps).
Qed.

Lemma blank_false_truthy t : blank t = false → truthy (strip t) = true.
Proof.
  intros Hb. destruct (strip t) eqn:Hs; [|done].
  apply strip_empty_iff in Hs. congruence.
Qed.

Lemma load_proverbs_snoc (st : store) i doc :
  load_proverbs (store_add i doc st) = load_proverbs st ++ [doc ∪ {[ "id" := PStr i ]}].
Proof. unfold load_proverbs, store_add. by rewrite fmap_app. Qed.

Lemma text_key_loaded_mk_doc t m tr c kw i :
  text_key (mk_doc (strip t) m tr c kw ∪ {[ "id" := PStr i ]}) = lower (strip t).
Proof.
  unfold text_key, field_str. rewrite loaded_lookup by done.
  by rewrite mk_doc_text, strip_idemp.
Qed.

Lemma readable_loaded_mk_doc t m tr c kw i k :
  k ≠ "keywords" → readable (mk_doc t m tr c kw ∪ {[ "id" := PStr i ]}) k = true.
Proof.
  intros Hk. unfold readable.
  destruct (decide (k = "id")) as [->|Hid].
  - by rewrite loaded_id by apply mk_doc_id.
  - rewrite loaded_lookup by done. unfold mk_doc.
    repeat (rewrite lookup_insert; case_decide; [done|]).
    by rewrite lookup_singleton_ne.
Qed.

End add_form.

(** X10: the decision of the add form. With readable stored texts, a blank
    text or meaning gives the "required" error; otherwise the submission is
    refused as a duplicate exactly when some stored record has the same
    trimmed-lowercased text, and is written when none has. When a stored
    text is unreadable the handler raises, whatever was typed. *)
Theorem add_proverb_click_decision (proverbs : list pdict)
    (new_text new_meaning new_translation new_category : string) :
  (forallb (λ p, readable p "text") proverbs = true →
   (blank new_text = true ∨ blank new_meaning = true →
    add_proverb_click proverbs new_text new_meaning new_translation new_category
      = Ok (StError "Proverb text and meaning are required.")) ∧
   (blank new_text = false → blank new_meaning = false →
    (∃ p, p ∈ proverbs ∧ text_key p = lower (strip new_text)) →
    add_proverb_click proverbs new_text new_meaning new_translation new_category
      = Ok (StError "This proverb already exists. It will not be added.")) ∧
   (blank new_text = false → blank new_meaning = false →
    (∀ p, p ∈ proverbs → text_key p ≠ lower (strip new_text)) →
    add_proverb_click proverbs new_text new_meaning new_translation new_category
      = Ok (StoreAdd (mk_doc (strip new_text) (strip new_meaning)
                        (strip new_translation)
                        (or_uncategorized (strip new_category))
                        (lower <$> split new_text))))) ∧
  (forallb (λ p, readable p "text") proverbs = false →
   add_proverb_click proverbs new_text new_meaning new_translation new_category
     = Raise AttributeError).
Proof.
  unfold add_proverb_click. rewrite mapM_norm_text_total.
  destruct (forallb _ proverbs); simpl; split; try done.
  intros _. split; [|split].
  - intros [Hb|Hb]; apply strip_empty_iff in Hb; rewrite Hb; simpl; [done|].
    by rewrite orb_true_r.
  - intros Ht Hm (p & Hp & Hkey).
    rewrite (blank_false_truthy _ Ht), (blank_false_truthy _ Hm). simpl.
    rewrite bool_decide_eq_true_2; [done|].
    rewrite <-Hkey. by apply list_elem_of_fmap_2.
  - intros Ht Hm Hnone.
    rewrite (blank_false_truthy _ Ht), (blank_false_truthy _ Hm). simpl.
    rewrite bool_decide_eq_false_2; [done|].
    intros (p & Hkey & Hp)%list_elem_of_fmap. by apply (Hnone p Hp).
Qed.

Lemma add_proverb_click_decision_witness :
  add_proverb_click (load_proverbs store_one) "  KHOMO ke Thota " "m" "" ""
    = Ok (StError "This proverb already exists. It will not be added.").
Proof.
  apply (proj1 (add_proverb_click_decision (load_proverbs store_one)
                  "  KHOMO ke Thota " "m" "" "")).
  - reflexivity.
  - reflexivity.
  - reflexivity.
  - exists loaded_one. split; [left|reflexivity].
Defined.

(** X11: a record that the add form has written is found by searching for
    the text that was typed, in texts alone or in texts and meanings. *)
Theorem added_record_is_found (st : store)
    (new_text new_meaning new_translation new_category : string)
    (doc : pdict) (new_id : string) (search_in_meaning : bool) :
  add_proverb_click (load_proverbs st) new_text new_meaning new_translation new_category
    = Ok (StoreAdd doc) →
  forallb search_readable (load_proverbs st) = true →
  ∃ found,
    search_proverbs (load_proverbs (store_add new_id doc st)) new_text search_in_meaning
      = Ok found ∧
    doc ∪ {[ "id" := PStr new_id ]} ∈ found.
Proof.
  intros (-> & Ht & _)%add_proverb_click_added Hall.
  rewrite search_proverbs_total, load_proverbs_snoc, forallb_app, Hall.
  assert (blank new_text = false) as ->.
  { destruct (blank new_text) eqn:Hb; [|done]. by apply strip_empty_iff in Hb. }
  unfold search_readable at 1. simpl.
  rewrite !readable_loaded_mk_doc by done. simpl.
  eexists. split; [done|]. apply list_elem_of_filter. split.
  - left. unfold field_str. rewrite loaded_lookup by done.
    rewrite mk_doc_text, lower_strip. exists "", "".
    by rewrite app_nil_l_s, app_nil_r_s.
  - apply elem_of_app. right. left.
Qed.

Lemma added_record_is_found_witness :
  ∃ found,
    search_proverbs
      (load_proverbs (store_add "b" (mk_doc "Tau" "m" "" "Uncategorized" ["tau"]) store_one))
      " Tau " false = Ok found ∧
    mk_doc "Tau" "m" "" "Uncategorized" ["tau"] ∪ {[ "id" := PStr "b" ]} ∈ found.
Proof.
  apply (added_record_is_found store_one " Tau " "m" "" "").
  - vm_compute. reflexivity.
  - reflexivity.
Defined.

(** X12: once the add form has written a text, submitting a text that
    differs from it only in letter case or surrounding whitespace is refused
    as a duplicate. *)
Theorem added_text_is_taken (st : store)
    (new_text new_meaning new_translation new_category : string)
    (doc : pdict) (new_id : string) (text' meaning' translation' category' : string) :
  add_proverb_click (load_proverbs st) new_text new_meaning new_translation new_category
    = Ok (StoreAdd doc) →
  lower (strip text') = lower (strip new_text) →
  blank meaning' = false →
  add_proverb_click (load_proverbs (store_add new_id doc st))
    text' meaning' translation' category'
    = Ok (StError "This proverb already exists. It will not be added.").
Proof.
  intros (-> & Ht & _ & keys & Hkeys & _)%add_proverb_click_added Hsame Hm.
  unfold add_proverb_click at 1.
  rewrite load_proverbs_snoc.
  assert (mapM norm_text
            (load_proverbs st ++
             [mk_doc (strip new_text) (strip new_meaning) (strip new_translation)
                (or_uncategorized (strip new_category)) (lower <$> split new_text)
              ∪ {[ "id" := PStr new_id ]}])
          = Ok (keys ++ [lower (strip new_text)])) as ->.
  { apply mapM_result_app. exists keys, [lower (strip new_text)].
    split; [done|]. split; [|done]. simpl.
    by rewrite norm_text_loaded, norm_text_mk_doc. }
  simpl. rewrite (blank_false_truthy _ Hm).
  assert (truthy (strip text') = true) as ->.
  { destruct (strip text') eqn:Hs; [|done]. simpl in Hsame.
    destruct (strip new_text); [done|discriminate]. }
  simpl. rewrite bool_decide_eq_true_2; [done|].
  rewrite Hsame. apply elem_of_app. right. left.
Qed.

Lemma added_text_is_taken_witness :
  add_proverb_click
    (load_proverbs (store_add "b" (mk_doc "Tau" "m" "" "Uncategorized" ["tau"]) store_one))
    "TAU  " "x" "" ""
  = Ok (StError "This proverb already exists. It will not be added.").
Proof.
  apply (added_text_is_taken store_one " Tau " "m" "" "").
  - vm_compute. reflexivity.
  - reflexivity.
  - reflexivity.
Defined.

(** * Saving and deleting the selected record *)

Section selected_record.
Implicit Types (d doc selected : pdict) (i : string).

(** The record selected in the edit box is a document of the collection,
    loaded with its own id. *)
Lemma select_loaded (st : list (string * pdict)) sel selected :
  store_ok st →
  select (load_proverbs st) sel = Some selected →
  ∃ before i d after,
    st = before ++ (i, d) :: after ∧
    selected = d ∪ {[ "id" := PStr i ]} ∧
    selected !! "id" = Some (PStr i) ∧
    py_or (dict_get d "text") (PStr "") = sel ∧
    (i ∉ before.*1) ∧ (i ∉ after.*1).
Proof.
  intros [Hids Hno] Hsel. apply find_some in Hsel as [Hin Htext].
  apply bool_decide_eq_true in Htext.
  apply list_elem_of_In, list_elem_of_fmap in Hin as ([i d] & -> & Hin).
  simpl in Htext |- *.
  apply list_elem_of_split in Hin as (before & after & ->).
  exists before, i, d, after.
  rewrite fmap_app, fmap_cons in Hids. rewrite fmap_app, fmap_cons in Hno.
  simpl in Hids, Hno.
  apply NoDup_app in Hids as (_ & Hdisj & [Hi2 _]%NoDup_cons).
  apply Forall_app in Hno as [_ [Hd _]%Forall_cons].
  split; [done|]. split; [done|]. split; [by apply loaded_id|]. split.
  - unfold dict_get in *. by rewrite loaded_lookup in Htext.
  - split; [|done]. intros Hi. apply (Hdisj i Hi). left.
Qed.

Lemma store_delete_split (before after : list (string * pdict)) i d :
  i ∉ before.*1 → i ∉ after.*1 →
  store_delete i (before ++ (i, d) :: after) = before ++ after.
Proof.
  intros H1 H2. unfold store_delete.
  rewrite filter_app, filter_cons. simpl.
  rewrite decide_False by (intros H; by apply H).
  by rewrite (filter_other_ids _ _ H1), (filter_other_ids _ _ H2).
Qed.

Lemma delete_step_split (st : list (string * pdict)) sel st' :
  store_ok st → delete_step st sel st' →
  ∃ before i d after,
    st = before ++ (i, d) :: after ∧
    py_or (dict_get d "text") (PStr "") = sel ∧
    st' = before ++ after.
Proof.
  intros Hok Hstep.
  destruct Hstep as [st sel selected st' Hsel Hclick|st sel selected e Hsel Hclick];
    destruct (select_loaded _ _ _ Hok Hsel)
      as (before & i & d & after & -> & _ & Hid & Htext & H1 & H2);
    unfold delete_proverb_click, dict_item in Hclick; rewrite Hid in Hclick;
    simpl in Hclick; [|done].
  injection Hclick as <-. exists before, i, d, after.
  split; [done|]. split; [done|]. by apply store_delete_split.
Qed.

Lemma store_ok_remove (before after : list (string * pdict)) i d :
  store_ok (before ++ (i, d) :: after) → store_ok (before ++ after).
Proof.
  unfold store_ok. rewrite !fmap_app, !fmap_cons. simpl.
  intros [Hids Hno]. split.
  - apply NoDup_app in Hids as (H1 & Hdisj & [_ H2]%NoDup_cons).
    apply NoDup_app. split; [done|]. split; [|done].
    intros j Hj Hj'. apply (Hdisj j Hj). by right.
  - apply Forall_app in Hno as [Hno1 [_ Hno2]%Forall_cons].
    by apply Forall_app.
Qed.

Lemma unique_texts_remove (before after : list (string * pdict)) i d :
  unique_texts (before ++ (i, d) :: after) → unique_texts (before ++ after).
Proof.
  intros (keys & Hkeys & Hnd).
  rewrite fmap_app, fmap_cons in Hkeys.
  apply mapM_result_app in Hkeys as (k1 & k2' & Hk1 & Hk2 & ->).
  apply mapM_result_cons_inv in Hk2 as (kd & k2 & _ & Hk2 & ->).
  exists (k1 ++ k2). split.
  - rewrite fmap_app. apply mapM_result_app. by exists k1, k2.
  - apply NoDup_app in Hnd as (H1 & Hdisj & [_ H2]%NoDup_cons).
    apply NoDup_app. split; [done|]. split; [|done].
    intros k Hk Hk'. apply (Hdisj k Hk). by right.
Qed.

End selected_record.

(** X13: a successful "Save Changes" overwrites exactly the document that
    was selected, in place: its fields become the five fields built from the
    form, and every other document, and the order, stay as they were. *)
Theorem save_overwrites_selected (st : store) (sel : pyval) (selected : pdict)
    (edit_text edit_meaning edit_translation edit_category : string)
    (sid : pyval) (doc : pdict) :
  store_ok st →
  select (load_proverbs st) sel = Some selected →
  save_changes_click (load_proverbs st) selected
    edit_text edit_meaning edit_translation edit_category = Ok (StoreSet sid doc) →
  ∃ before i d after,
    st = before ++ (i, d) :: after ∧
    selected = d ∪ {[ "id" := PStr i ]} ∧
    update_proverb_doc sid doc st = before ++ (i, doc) :: after ∧
    dom doc = ({[ "text"; "meaning"; "translation"; "category"; "keywords" ]} : gset string).
Proof.
  intros Hok Hsel (-> & Hsid & _)%save_changes_click_set.
  destruct (select_loaded _ _ _ Hok Hsel)
    as (before & i & d & after & -> & Hselected & Hid & _ & H1 & _).
  rewrite Hid in Hsid. injection Hsid as <-.
  exists before, i, d, after. split; [done|]. split; [done|]. split.
  - simpl. by apply store_set_split.
  - unfold mk_doc. rewrite !dom_insert_L, dom_singleton_L. set_solver.
Qed.

Lemma save_overwrites_selected_witness :
  ∃ before i d after,
    store_case_twins = before ++ (i, d) :: after ∧
    {[ "text" := PStr "khomo ke thota" ]} ∪ {[ "id" := PStr "b" ]}
      = d ∪ {[ "id" := PStr i ]} ∧
    update_proverb_doc (PStr "b") (mk_doc "Tau" "m" "" "Wisdom" ["tau"]) store_case_twins
      = before ++ (i, mk_doc "Tau" "m" "" "Wisdom" ["tau"]) :: after ∧
    dom (mk_doc "Tau" "m" "" "Wisdom" ["tau"])
      = ({[ "text"; "meaning"; "translation"; "category"; "keywords" ]} : gset string).
Proof.
  apply (save_overwrites_selected store_case_twins (PStr "khomo ke thota")
           ({[ "text" := PStr "khomo ke thota" ]} ∪ {[ "id" := PStr "b" ]})
           " Tau" "m " "" "Wisdom").
  - split.
    + apply (NoDup_cons_2 "a" ["b"]).
      * rewrite list_elem_of_singleton. discriminate.
      * apply NoDup_singleton.
    + repeat constructor.
  - vm_compute. reflexivity.
  - vm_compute. reflexivity.
Defined.

(** X14: "Delete Proverb" removes the document selected in the edit box and
    no other; the remaining documents keep their order. *)
Theorem delete_removes_selected (st : store) (sel : pyval) (st' : store) :
  store_ok st → delete_step st sel st' →
  ∃ before i d after,
    st = before ++ (i, d) :: after ∧
    py_or (dict_get d "text") (PStr "") = sel ∧
    st' = before ++ after.
Proof. apply delete_step_split. Qed.

Lemma delete_removes_selected_witness :
  ∃ before i d after,
    store_case_twins = before ++ (i, d) :: after ∧
    py_or (dict_get d "text") (PStr "") = PStr "khomo ke thota" ∧
    [("a", cand_khomo)] = before ++ after.
Proof.
  apply (delete_removes_selected store_case_twins (PStr "khomo ke thota")).
  - split.
    + apply (NoDup_cons_2 "a" ["b"]).
      * rewrite list_elem_of_singleton. discriminate.
      * apply NoDup_singleton.
    + repeat constructor.
  - apply (delete_step_done store_case_twins (PStr "khomo ke thota")
             ({[ "text" := PStr "khomo ke thota" ]} ∪ {[ "id" := PStr "b" ]})).
    + vm_compute. reflexivity.
    + vm_compute. reflexivity.
Defined.

(** X15: every run of clicks on the admin page (add, save, delete) keeps the
    trimmed-lowercased texts of the collection pairwise distinct, provided
    the document ids are distinct and no document has a field named "id";
    both provisos are kept as well. *)
Theorem admin_run_keeps_unique (st : store) (clicks : list admin_click) (st' : store) :
  admin_run st clicks st' →
  store_ok st → unique_texts st →
  store_ok st' ∧ unique_texts st'.
Proof.
  induction 1 as [st|st click st1 clicks st2 Hstep _ IH]; intros Hok Hu; [done|].
  destruct Hstep as [st t m tr c st' Hs|st sel t m tr c st' Hs|st sel st' Hs].
  - apply IH.
    + by eapply admin_add_keeps_store_ok.
    + by eapply admin_add_keeps_unique.
  - destruct (admin_edit_keeps_unique _ _ _ _ _ _ _ Hok Hu Hs). by apply IH.
  - destruct (delete_step_split _ _ _ Hok Hs) as (before & i & d & after & -> & _ & ->).
    apply IH.
    + by eapply store_ok_remove.
    + by eapply unique_texts_remove.
Qed.

Lemma admin_run_keeps_unique_witness :
  store_ok store_two_edited ∧ unique_texts store_two_edited.
Proof.
  apply (admin_run_keeps_unique store_one
           [ ClickAdd " Tau " "m" "" "";
             ClickSave (PStr "Tau") "Tau ea thaba" "m" "" " Wisdom";
             ClickAdd "khomo KE thota" "x" "" "" ]).
  - apply (admin_run_cons store_one _ store_two).
    { apply admin_step_add, step_admin_add.
      replace (add_proverb_click (load_proverbs store_one) " Tau " "m" "" "")
        with (Ok (StoreAdd doc_tau)) by (vm_compute; reflexivity).
      apply (commits_add store_one doc_tau "b").
      intros Hin. change (store_one.*1) with ["a"] in Hin.
      apply list_elem_of_singleton in Hin. discriminate. }
    apply (admin_run_cons store_two _ store_two_edited).
    { apply admin_step_save.
      apply (step_admin_edit store_two (PStr "Tau") (doc_tau ∪ {[ "id" := PStr "b" ]})).
      - vm_compute. reflexivity.
      - replace (save_changes_click (load_proverbs store_two)
                   (doc_tau ∪ {[ "id" := PStr "b" ]}) "Tau ea thaba" "m" "" " Wisdom")
          with (Ok (StoreSet (PStr "b") doc_tau_thaba)) by (vm_compute; reflexivity).
        apply (commits_set store_two (PStr "b") doc_tau_thaba). }
    apply (admin_run_cons store_two_edited _ store_two_edited).
    { apply admin_step_add, step_admin_add.
      replace (add_proverb_click (load_proverbs store_two_edited) "khomo KE thota" "x" "" "")
        with (@Ok action (StError "This proverb already exists. It will not be added."))
        by (vm_compute; reflexivity).
      apply commits_error. }
    apply admin_run_nil.
  - split.
    + apply NoDup_singleton.
    + repeat constructor.
  - exists ["khomo ke thota"]. split; [vm_compute; reflexivity|].
    apply NoDup_singleton.
Defined.

(** * Further properties of the bulk importer *)

Section import_more.
Implicit Types (p doc : pdict) (ps : list pdict) (existing : gmap string string).

Lemma import_loop_count existing ps docs count :
  added_count (import_loop existing ps docs count) + length docs =
    count + length (added (import_loop existing ps docs count)).
Proof.
  revert docs count. induction ps as [|p ps IH]; intros docs count; simpl.
  - lia.
  - destruct (import_candidate existing p) as [[data|]|e]; simpl; [|done|lia].
    pose proof (IH (docs ++ [data]) (count + 1)) as H.
    rewrite length_app in H. simpl in H. lia.
Qed.

Lemma import_loop_app existing ps1 ps2 docs count :
  failure (import_loop existing ps1 docs count) = None →
  import_loop existing (ps1 ++ ps2) docs count =
    import_loop existing ps2
      (added (import_loop existing ps1 docs count))
      (added_count (import_loop existing ps1 docs count)).
Proof.
  revert docs count. induction ps1 as [|p ps1 IH]; intros docs count; simpl.
  - done.
  - destruct (import_candidate existing p) as [[data|]|e]; simpl; [| |done];
      apply IH.
Qed.

(** The whole run on a readable collection and a batch in the input
    format. *)
Lemma upload_ok (st : store) ps keys :
  mapM norm_text st.*2 = Ok keys →
  forallb candidate_ok ps = true →
  upload_json_to_firestore st ps =
    {| added := imported_doc <$> filter (admissible keys) ps;
       added_count := length (filter (admissible keys) ps);
       failure := None |}.
Proof.
  intros Hkeys Hps.
  destruct (build_existing_ok st ∅ keys Hkeys) as (ex & Hex & Hdom).
  assert (∀ k, is_Some (ex !! k) ↔ k ∈ keys) as Hdom'.
  { intros k. rewrite Hdom, lookup_empty, is_Some_alt. tauto. }
  unfold upload_json_to_firestore. rewrite Hex.
  by rewrite (import_loop_ok ex keys ps [] 0 Hdom' Hps).
Qed.

Lemma text_key_imported_doc p : text_key (imported_doc p) = text_key p.
Proof.
  unfold text_key at 1, field_str, imported_doc.
  by rewrite mk_doc_text, strip_idemp.
Qed.

Lemma norm_text_imported_doc p : norm_text (imported_doc p) = Ok (text_key p).
Proof. unfold imported_doc. by rewrite norm_text_mk_doc. Qed.

(** The normalised texts of the collection after the importer's records
    were appended. *)
Lemma mapM_norm_text_imported (st : list (string * pdict)) keys new_ids ps :
  mapM norm_text st.*2 = Ok keys →
  length new_ids = length ps →
  mapM norm_text (st ++ zip new_ids (imported_doc <$> ps)).*2
    = Ok (keys ++ (text_key <$> ps)).
Proof.
  intros Hkeys Hlen. rewrite fmap_app, snd_zip by (rewrite length_fmap; lia).
  apply mapM_result_app. exists keys, (text_key <$> ps).
  split; [done|]. split; [|done].
  rewrite (mapM_result_ok norm_text text_key).
  - by rewrite <-list_fmap_compose, (list_fmap_ext _ text_key ps)
      by (intros; apply text_key_imported_doc).
  - intros doc (p & -> & _)%list_elem_of_fmap.
    by rewrite norm_text_imported_doc, text_key_imported_doc.
Qed.

Lemma admissible_weaken keys keys' p :
  (∀ k, k ∈ keys → k ∈ keys') → admissible keys' p → admissible keys p.
Proof. unfold admissible. intros Hsub [Hne Hnot]. split; [done|]. auto. Qed.

Lemma filter_empty {A} (P : A → Prop) `{∀ x, Decision (P x)} (l : list A) :
  (∀ x, x ∈ l → ¬ P x) → filter P l = [].
Proof.
  intros Hl. destruct (filter P l) as [|x l'] eqn:Hf; [done|].
  assert (x ∈ filter P l) as [HP Hx]%list_elem_of_filter by (rewrite Hf; left).
  by destruct (Hl x Hx).
Qed.

End import_more.

(** X16: once the collection has been read, the counter of the importer
    equals the number of records it handed to the store, for every batch,
    also when the loop ends with an exception. *)
Theorem import_count_matches (st : store) (existing : gmap string string)
    (proverbs : list pdict) :
  build_existing st ∅ = Ok existing →
  added_count (upload_json_to_firestore st proverbs)
    = length (added (upload_json_to_firestore st proverbs)).
Proof.
  unfold upload_json_to_firestore. intros ->.
  pose proof (import_loop_count existing proverbs [] 0) as H. simpl in H. lia.
Qed.

Lemma import_count_matches_witness :
  added_count (upload_json_to_firestore store_one
                 [cand_ntja; cand_tau_null_meaning; cand_khomo_lower])
  = length (added (upload_json_to_firestore store_one
                     [cand_ntja; cand_tau_null_meaning; cand_khomo_lower])).
Proof.
  apply (import_count_matches store_one {[ "khomo ke thota" := "a" ]}).
  vm_compute. reflexivity.
Defined.

(** X17: an exception at one candidate ends the run there: the records of
    the candidates before it have been handed to the store and stay, and the
    candidates after it are not looked at. *)
Theorem import_abort_keeps_earlier (st : store) (existing : gmap string string)
    (before : list pdict) (p : pdict) (after : list pdict) (e : pyerr) :
  build_existing st ∅ = Ok existing →
  failure (upload_json_to_firestore st before) = None →
  import_candidate existing p = Raise e →
  added (upload_json_to_firestore st (before ++ p :: after))
    = added (upload_json_to_firestore st before) ∧
  added_count (upload_json_to_firestore st (before ++ p :: after))
    = added_count (upload_json_to_firestore st before) ∧
  failure (upload_json_to_firestore st (before ++ p :: after)) = Some e.
Proof.
  unfold upload_json_to_firestore. intros -> Hok Hp.
  rewrite (import_loop_app _ _ _ _ _ Hok). simpl. by rewrite Hp.
Qed.

Lemma import_abort_keeps_earlier_witness :
  added (upload_json_to_firestore []
           ([cand_khomo] ++ {[ "text" := PStr "Tau"; "meaning" := PNone ]} :: [cand_khomo_lower]))
    = added (upload_json_to_firestore [] [cand_khomo]) ∧
  added_count (upload_json_to_firestore []
           ([cand_khomo] ++ {[ "text" := PStr "Tau"; "meaning" := PNone ]} :: [cand_khomo_lower]))
    = added_count (upload_json_to_firestore [] [cand_khomo]) ∧
  failure (upload_json_to_firestore []
           ([cand_khomo] ++ {[ "text" := PStr "Tau"; "meaning" := PNone ]} :: [cand_khomo_lower]))
    = Some AttributeError.
Proof.
  apply (import_abort_keeps_earlier [] ∅ [cand_khomo]
           {[ "text" := PStr "Tau"; "meaning" := PNone ]} [cand_khomo_lower] AttributeError).
  - reflexivity.
  - reflexivity.
  - reflexivity.
Defined.

(** X18: running the importer a second time on the same batch adds
    nothing: after a run on a readable collection and a batch in the input
    format, every candidate is either empty or already stored. *)
Theorem import_rerun_adds_nothing (st : store) (candidates : list pdict)
    (keys : list string) (new_ids : list string) :
  mapM norm_text st.*2 = Ok keys →
  forallb candidate_ok candidates = true →
  length new_ids = length (added (upload_json_to_firestore st candidates)) →
  upload_json_to_firestore
    (st ++ zip new_ids (added (upload_json_to_firestore st candidates))) candidates
  = {| added := []; added_count := 0; failure := None |}.
Proof.
  intros Hkeys Hps. rewrite (upload_ok st candidates keys Hkeys Hps). simpl.
  rewrite length_fmap. intros Hlen.
  rewrite (upload_ok _ candidates _ (mapM_norm_text_imported _ _ _ _ Hkeys Hlen) Hps).
  rewrite filter_empty; [done|].
  intros p Hp Hadm.
  assert (admissible keys p) as Hadm0.
  { eapply admissible_weaken; [|done]. intros k Hk. apply elem_of_app. by left. }
  destruct Hadm as [_ Hnot]. apply Hnot, elem_of_app. right.
  apply list_elem_of_fmap_2, list_elem_of_filter. by split.
Qed.

Lemma import_rerun_adds_nothing_witness :
  upload_json_to_firestore
    ([] ++ zip ["a"; "b"] (added (upload_json_to_firestore [] batch_khomo))) batch_khomo
  = {| added := []; added_count := 0; failure := None |}.
Proof.
  apply (import_rerun_adds_nothing [] batch_khomo [] ["a"; "b"]).
  - reflexivity.
  - reflexivity.
  - vm_compute. reflexivity.
Defined.

(** X19: an import keeps the texts of the collection unique when the
    admitted candidates of the batch have pairwise distinct
    trimmed-lowercased texts; distinct ids and the absence of "id" fields
    are kept too. *)
Theorem import_keeps_unique_without_repeats (st : store) (candidates : list pdict)
    (keys : list string) (st' : store) :
  store_ok st →
  mapM norm_text st.*2 = Ok keys → NoDup keys →
  forallb candidate_ok candidates = true →
  NoDup (text_key <$> filter (admissible keys) candidates) →
  step st (BulkImport candidates) st' →
  store_ok st' ∧ unique_texts st'.
Proof.
  intros [Hids Hno] Hkeys Hnd Hps Hnew Hstep.
  inversion Hstep as [| |? ? new_ids Hlen Hfresh Hnotin]; subst. clear Hstep.
  rewrite (upload_ok st candidates keys Hkeys Hps) in *. simpl in *.
  rewrite length_fmap in Hlen. split; [split|].
  - rewrite fmap_app, fst_zip by (rewrite length_fmap; lia).
    apply NoDup_app. split; [done|]. split; [|done].
    intros i Hi Hi'. by apply (Hnotin i).
  - rewrite fmap_app, snd_zip by (rewrite length_fmap; lia).
    apply Forall_app. split; [done|].
    apply Forall_fmap, Forall_forall. intros p _. apply mk_doc_id.
  - exists (keys ++ (text_key <$> filter (admissible keys) candidates)).
    split; [by apply mapM_norm_text_imported|].
    apply NoDup_app. split; [done|]. split; [|done].
    intros k Hk (p & -> & [[_ Hnot] _]%list_elem_of_filter)%list_elem_of_fmap.
    done.
Qed.

Lemma import_keeps_unique_without_repeats_witness :
  store_ok (store_one ++ zip ["b"] (added (upload_json_to_firestore store_one
              [cand_khomo_lower; {[ "text" := PStr "Tau" ]}]))) ∧
  unique_texts (store_one ++ zip ["b"] (added (upload_json_to_firestore store_one
              [cand_khomo_lower; {[ "text" := PStr "Tau" ]}]))).
Proof.
  apply (import_keeps_unique_without_repeats store_one
           [cand_khomo_lower; {[ "text" := PStr "Tau" ]}] ["khomo ke thota"]).
  - split; [apply NoDup_singleton|repeat constructor].
  - reflexivity.
  - apply NoDup_singleton.
  - reflexivity.
  - vm_compute. apply NoDup_singleton.
  - apply (step_bulk_import store_one [cand_khomo_lower; {[ "text" := PStr "Tau" ]}] ["b"]).
    + vm_compute. reflexivity.
    + apply NoDup_singleton.
    + intros i ->%list_elem_of_singleton Hin.
      change (store_one.*1) with ["a"] in Hin.
      apply list_elem_of_singleton in Hin. discriminate.
Defined.

(** * Shape of the stored records *)

Lemma or_uncategorized_trimmed (c : string) :
  strip (or_uncategorized (strip c)) = or_uncategorized (strip c).
Proof.
  unfold or_uncategorized. destruct (truthy (strip c)); [apply strip_idemp|done].
Qed.

Lemma mk_doc_trimmed (t m tr c : string) (kw : list string) :
  trimmed_record (mk_doc (strip t) (strip m) (strip tr) (or_uncategorized (strip c)) kw).
Proof.
  split.
  - unfold mk_doc. rewrite !dom_insert_L, dom_singleton_L. set_solver.
  - intros k Hk. repeat (apply elem_of_cons in Hk as [->|Hk]).
    + eexists. split; [apply mk_doc_text|apply strip_idemp].
    + eexists. split; [apply mk_doc_meaning|apply strip_idemp].
    + eexists. split; [reflexivity|apply strip_idemp].
    + eexists. split; [apply mk_doc_category|apply or_uncategorized_trimmed].
    + by apply elem_of_nil in Hk.
Qed.

(** X20: every record written by the add form, the edit form or the
    importer has exactly the fields text, meaning, translation, category and
    keywords (in particular no "id"), and its four text fields are strings
    with no leading or trailing whitespace. *)
Theorem persisted_records_trimmed :
  (∀ ps t m tr c doc,
     add_proverb_click ps t m tr c = Ok (StoreAdd doc) → trimmed_record doc) ∧
  (∀ ps selected t m tr c sid doc,
     save_changes_click ps selected t m tr c = Ok (StoreSet sid doc) →
     trimmed_record doc) ∧
  (∀ st candidates doc,
     doc ∈ added (upload_json_to_firestore st candidates) → trimmed_record doc).
Proof.
  split; [|split].
  - intros ps t m tr c doc (-> & _)%add_proverb_click_added. apply mk_doc_trimmed.
  - intros ps selected t m tr c sid doc (-> & _)%save_changes_click_set.
    apply mk_doc_trimmed.
  - intros st candidates doc (p & _ & -> & _)%upload_added. unfold imported_doc.
    rewrite <-(strip_idemp (field_str p "text")) at 1. apply mk_doc_trimmed.
Qed.

Lemma persisted_records_trimmed_witness :
  trimmed_record (mk_doc "Tau" "m" "" "Wisdom" ["tau"]) ∧
  trimmed_record (imported_doc cand_khomo).
Proof.
  split.
  - apply (proj1 persisted_records_trimmed [] " Tau" "m " "" " Wisdom "). reflexivity.
  - apply (proj2 (proj2 persisted_records_trimmed) [] batch_khomo).
    vm_compute. left.
Defined.

(** X21: the importer is more lenient than the add form: a candidate with
    text but a blank meaning is written by the importer, with an empty
    meaning, while the add form refuses the same fields. *)
Theorem import_admits_blank_meaning (st : store) (keys : list string) (p : pdict) :
  mapM norm_text st.*2 = Ok keys →
  candidate_ok p = true → admissible keys p →
  blank (field_str p "meaning") = true →
  added (upload_json_to_firestore st [p]) = [imported_doc p] ∧
  imported_doc p !! "meaning" = Some (PStr "") ∧
  add_proverb_click (load_proverbs st) (field_str p "text") (field_str p "meaning")
    (field_str p "translation") (field_str p "category")
    = Ok (StError "Proverb text and meaning are required.").
Proof.
  intros Hkeys Hok Hadm Hm. split; [|split].
  - rewrite (upload_ok st [p] keys Hkeys); [|by simpl; rewrite Hok].
    simpl. rewrite filter_cons, decide_True by done. done.
  - unfold imported_doc. rewrite mk_doc_meaning.
    by apply strip_empty_iff in Hm as ->.
  - unfold add_proverb_click. rewrite mapM_norm_text_loaded, Hkeys. simpl.
    apply strip_empty_iff in Hm. rewrite Hm. simpl. by rewrite orb_true_r.
Qed.

Lemma import_admits_blank_meaning_witness :
  added (upload_json_to_firestore store_one [ {[ "text" := PStr "Tau" ]} ])
    = [imported_doc {[ "text" := PStr "Tau" ]}] ∧
  imported_doc {[ "text" := PStr "Tau" ]} !! "meaning" = Some (PStr "") ∧
  add_proverb_click (load_proverbs store_one)
    (field_str {[ "text" := PStr "Tau" ]} "text")
    (field_str {[ "text" := PStr "Tau" ]} "meaning")
    (field_str {[ "text" := PStr "Tau" ]} "translation")
    (field_str {[ "text" := PStr "Tau" ]} "category")
    = Ok (StError "Proverb text and meaning are required.").
Proof.
  apply (import_admits_blank_meaning store_one ["khomo ke thota"] {[ "text" := PStr "Tau" ]}).
  - reflexivity.
  - reflexivity.
  - split; [vm_compute; discriminate|].
    rewrite list_elem_of_singleton. vm_compute. discriminate.
  - reflexivity.
Defined.

(** * Loaded records carry their id *)

Lemma load_proverbs_has_id (st : store) (p : pdict) :
  p ∈ load_proverbs st → is_Some (p !! "id").
Proof.
  intros ([i d] & -> & _)%list_elem_of_fmap. simpl.
  apply lookup_union_is_Some. right. rewrite lookup_singleton_eq. by eexists.
Qed.

Lemma other_texts_raise (ps : list pdict) (selected : pdict) (e : pyerr) :
  Forall (λ p : pdict, is_Some (p !! "id")) ps → is_Some (selected !! "id") →
  other_texts ps selected = Raise e → e = AttributeError.
Proof.
  intros Hps [sid Hsid]. induction Hps as [|p ps [pid Hpid] _ IH]; [done|].
  simpl. unfold dict_item at 1 2. rewrite Hpid, Hsid. simpl.
  case_bool_decide; [|done].
  rewrite norm_text_total. destruct (readable p "text"); simpl.
  - destruct (other_texts ps selected) as [ts|e']; simpl; [done|].
    intros [= <-]. by apply IH.
  - by intros [= <-].
Qed.

(** X22: on records as [load_proverbs] returns them the handlers of "Save
    Changes" and "Delete Proverb" never fail on a missing "id": saving can
    only raise [AttributeError], from an unreadable stored text, and the
    delete handler never raises. *)
Theorem loaded_records_never_keyerror (st : store) (selected : pdict)
    (edit_text edit_meaning edit_translation edit_category : string) :
  selected ∈ load_proverbs st →
  (∀ e, save_changes_click (load_proverbs st) selected
          edit_text edit_meaning edit_translation edit_category = Raise e →
        e = AttributeError) ∧
  (∃ st', delete_proverb_click selected st = Ok st').
Proof.
  intros Hsel. pose proof (load_proverbs_has_id _ _ Hsel) as Hid. split.
  - intros e. unfold save_changes_click.
    destruct (other_texts (load_proverbs st) selected) as [others|e'] eqn:Ho; simpl.
    + case_bool_decide; simpl; [done|]. unfold dict_item.
      by destruct Hid as [sid ->].
    + intros [= <-]. apply (other_texts_raise _ _ _ ltac:(apply Forall_forall, load_proverbs_has_id) Hid Ho).
  - unfold delete_proverb_click, dict_item. destruct Hid as [sid ->]. by eexists.
Qed.

Lemma loaded_records_never_keyerror_witness :
  ∃ st', delete_proverb_click loaded_one store_one = Ok st'.
Proof.
  apply (loaded_records_never_keyerror store_one loaded_one "" "" "" "").
  left.
Defined.

(** * The search page *)

(** X23: the search page shows nothing for the empty keyword, and warns
    that nothing matched for a keyword of whitespace only, whatever the
    collection holds; when it reports matches, the list is not empty, the
    count is its length and the matches are records of the collection in
    their order. *)
Theorem search_page_views (proverbs : list pdict) (keyword : string) (search_meaning : bool) :
  (keyword = "" → search_page proverbs keyword search_meaning = Ok NoSearch) ∧
  (keyword ≠ "" → blank keyword = true →
   search_page proverbs keyword search_meaning = Ok NoMatches) ∧
  (∀ count matches,
     search_page proverbs keyword search_meaning = Ok (Found count matches) →
     matches ≠ [] ∧ count = length matches ∧ matches `sublist_of` proverbs ∧
     blank keyword = false).
Proof.
  unfold search_page. split; [|split].
  - by intros ->.
  - intros Hne Hb. destruct keyword; [done|]. simpl truthy. cbv iota.
    by rewrite search_proverbs_total, Hb.
  - intros count matches. destruct (truthy keyword); [|done].
    rewrite search_proverbs_total.
    destruct (blank keyword); simpl; [done|].
    destruct (forallb search_readable proverbs); simpl; [|done].
    destruct (filter _ proverbs) as [|p l] eqn:Hf; simpl; [done|].
    intros [= <- <-]. split; [done|]. split; [done|]. split; [|done].
    rewrite <-Hf. apply sublist_filter.
Qed.

Lemma search_page_views_witness :
  search_page [rec_khomo] "  " true = Ok NoMatches.
Proof.
  apply (proj1 (proj2 (search_page_views [rec_khomo] "  " true))).
  - discriminate.
  - reflexivity.
Defined.
